(** * useWebmToGif: frame sampling, alpha keying and GIF submission

    A shallow embedding of the conversion hook (`useWebmToGif`): the
    per-pixel alpha keying loop of `extractFrames`, and the asynchronous
    `convert` / `extractFrames` / `cancel` functions as a machine that is
    resumed by the browser events the source awaits.

    Number model.  A JavaScript `number` that the hook computes with
    (`fps`, `quality`, `transparentThreshold`, `duration`, progress values)
    is an exact rational of [Q]; `Math.floor` and `Math.round` are the exact
    floor and round-half-up.  Counters, pixel channels and sizes are
    integers.  Rounding of IEEE doubles, NaN and the infinities are outside
    the model. *)

From Stdlib Require Import ZArith QArith Qround Qminmax Lqa Lia String Sorted.
From stdpp Require Import base tactics option list strings pretty.

Local Open Scope Z_scope.

(** ** JavaScript arithmetic used by the hook *)

Module JS.

Definition Math_floor (x : Q) : Z := Qfloor x.

(** `Math.round`: nearest integer, halves towards plus infinity. *)
Definition Math_round (x : Q) : Z := Qfloor (x + (1 # 2))%Q.

Definition Math_max (x y : Q) : Q := Qmax x y.
Definition Math_min (x y : Q) : Q := Qmin x y.

(** `a < b` on numbers. *)
Definition lt (a b : Q) : bool := negb (Qle_bool b a).

End JS.

(** ** Alpha keying (the inner loop of `extractFrames`) *)

Definition TRANSPARENT_COLOR : Z := 0x00FF00.

(** The three bytes the loop writes: `(TRANSPARENT_COLOR >> 16) & 0xFF`,
    `(TRANSPARENT_COLOR >> 8) & 0xFF` and `TRANSPARENT_COLOR & 0xFF`. *)
Definition keyR : Z := Z.land (Z.shiftr TRANSPARENT_COLOR 16) 0xFF.
Definition keyG : Z := Z.land (Z.shiftr TRANSPARENT_COLOR 8) 0xFF.
Definition keyB : Z := Z.land TRANSPARENT_COLOR 0xFF.

(** The colour key as an RGB triple. *)
Definition ColorKey : Z * Z * Z := (keyR, keyG, keyB).

(** One iteration of `for (let j = 0; j < data.length; j += 4)`.
    `data[j + 3]` past the end of the array is `undefined`, and
    `undefined < threshold` is false: nothing is written. *)
Definition keyPixel (transparentThreshold : Q) (data : list Z) (j : nat)
  : list Z :=
  match data !! (j + 3)%nat with
  | Some alpha =>
      if JS.lt (inject_Z alpha) transparentThreshold then
        <[(j + 3)%nat := 255]>
          (<[(j + 2)%nat := keyB]>
             (<[(j + 1)%nat := keyG]>
                (<[j := keyR]> data)))
      else data
  | None => data
  end.

(** The loop itself; [fuel] bounds the number of iterations. *)
Fixpoint keyLoop (fuel : nat) (transparentThreshold : Q) (data : list Z)
  (j : nat) : list Z :=
  match fuel with
  | O => data
  | S fuel' =>
      if (j <? length data)%nat
      then keyLoop fuel' transparentThreshold
             (keyPixel transparentThreshold data j) (j + 4)
      else data
  end.

(** The whole pass over one `ImageData.data`; the loop runs at most
    [length data] times, since `j` grows by four. *)
Definition alphaKey (transparentThreshold : Q) (data : list Z) : list Z :=
  keyLoop (length data) transparentThreshold data 0.

(** Pixel view of a flat RGBA array: pixel [k] is `data[4k .. 4k+3]`. *)
Definition pixelAt (data : list Z) (k : nat) : option (Z * Z * Z * Z) :=
  r ← data !! (4 * k)%nat;
  g ← data !! (4 * k + 1)%nat;
  b ← data !! (4 * k + 2)%nat;
  a ← data !! (4 * k + 3)%nat;
  Some (r, g, b, a).

Definition rgbOf (p : Z * Z * Z * Z) : Z * Z * Z :=
  let '(r, g, b, _) := p in (r, g, b).

Definition alphaOf (p : Z * Z * Z * Z) : Z :=
  let '(_, _, _, a) := p in a.

(** What one pass does to a single pixel. *)
Definition keyed (transparentThreshold : Q) (p : Z * Z * Z * Z)
  : Z * Z * Z * Z :=
  if JS.lt (inject_Z (alphaOf p)) transparentThreshold
  then (keyR, keyG, keyB, 255)
  else p.

(** The same pass, read four channels at a time. *)
Fixpoint keyChunks (transparentThreshold : Q) (data : list Z) : list Z :=
  match data with
  | r :: g :: b :: a :: rest =>
      (if JS.lt (inject_Z a) transparentThreshold
       then [keyR; keyG; keyB; 255]
       else [r; g; b; a]) ++ keyChunks transparentThreshold rest
  | _ => data
  end.

(** ** Data model of the hook *)

Record ConversionOptions := {
  fps : Q;
  quality : Q;
  width : option Z;
  height : option Z;
  transparentThreshold : Q;
}.

Inductive Stage := idle | extracting | encoding | complete | error.

Record ConversionProgress := {
  stage : Stage;
  progress : Q;
  framesExtracted : Z;
  totalFrames : Z;
  message : string;
}.

Record ImageData := {
  data : list Z;
  imageWidth : Z;
  imageHeight : Z;
}.

Definition Blob := list Z.

(** The encoder object (`new GIF({...})` of gif.js) as far as the hook
    drives it: its constructor options, the frames handed to `addFrame`
    with their frame options, and whether `render()` is in progress. *)
Record FrameOptions := {
  copy : bool;
  delay : Z;
  dispose : Z;
}.

Record GIF := {
  workers : Z;
  gifQuality : Q;
  gifWidth : Z;
  gifHeight : Z;
  workerScript : string;
  transparent : Z;
  gifFrames : list (ImageData * FrameOptions);
  running : bool;
}.

Definition addFrame (gif : GIF) (frame : ImageData) (o : FrameOptions) : GIF :=
  {| workers := workers gif; gifQuality := gifQuality gif;
     gifWidth := gifWidth gif; gifHeight := gifHeight gif;
     workerScript := workerScript gif; transparent := transparent gif;
     gifFrames := gifFrames gif ++ [(frame, o)]; running := running gif |}.

Definition setRunning (b : bool) (gif : GIF) : GIF :=
  {| workers := workers gif; gifQuality := gifQuality gif;
     gifWidth := gifWidth gif; gifHeight := gifHeight gif;
     workerScript := workerScript gif; transparent := transparent gif;
     gifFrames := gifFrames gif; running := b |}.

(** What the browser supplies to one conversion: the loaded video's
    metadata, whether the two `getContext('2d')` calls succeed, and
    `navigator.hardwareConcurrency`. *)
Record Browser := {
  duration : Q;
  videoWidth : Z;
  videoHeight : Z;
  canvasContext : bool;
  frameCanvasContext : bool;
  hardwareConcurrency : Z;
}.

(** `a || b` on numbers: zero is falsy. *)
Definition orZ (a b : Z) : Z := if a =? 0 then b else a.

(** `width || video.videoWidth` with an optional `width`. *)
Definition orElse (w : option Z) (d : Z) : Z :=
  match w with
  | Some v => orZ v d
  | None => d
  end.

(** The events the hook waits for or can be interrupted by. [seeked]
    carries what `getImageData` reads back after `drawImage`; the two
    encoder events are gif.js's `progress` and `finished`. *)
Inductive Event :=
| loadedmetadata
| canplaythrough
| videoError
| seeked (raster : list Z)
| cancelCalled
| gifProgress (p : Q)
| gifFinished (blob : Blob).

Inductive Settlement :=
| Resolved (blob : Blob)
| Rejected (msg : string).

(** Where `convert` is suspended. *)
Inductive Phase :=
| NotStarted
| AwaitMetadata    (* first `await new Promise` of convert *)
| AwaitCanPlay     (* second `await new Promise` *)
| AwaitSeeked (i : nat) (frames : list ImageData)
                   (* the await inside the sampling loop *)
| AwaitRender (frames : list ImageData)
                   (* the returned promise, after gif.render() *)
| Settled (r : Settlement).

(** Observable writes, kept as a history (newest first). *)
Inductive Effect :=
| SetProgress (p : ConversionProgress)
| SetCurrentTime (t : Q).

Record Hook := {
  progressState : ConversionProgress;
  isConverting : bool;
  cancelledRef : bool;
  gifRef : option GIF;
  pc : Phase;
  history : list Effect;
}.

(** `useWebmToGif()`: the state of a freshly mounted hook. *)
Definition useWebmToGif : Hook :=
  {| progressState :=
       {| stage := idle; progress := 0; framesExtracted := 0;
          totalFrames := 0; message := EmptyString |};
     isConverting := false;
     cancelledRef := false;
     gifRef := None;
     pc := NotStarted;
     history := [] |}.

Definition setProgress (p : ConversionProgress) (h : Hook) : Hook :=
  {| progressState := p; isConverting := isConverting h;
     cancelledRef := cancelledRef h; gifRef := gifRef h; pc := pc h;
     history := SetProgress p :: history h |}.

Definition setIsConverting (b : bool) (h : Hook) : Hook :=
  {| progressState := progressState h; isConverting := b;
     cancelledRef := cancelledRef h; gifRef := gifRef h; pc := pc h;
     history := history h |}.

Definition setCancelledRef (b : bool) (h : Hook) : Hook :=
  {| progressState := progressState h; isConverting := isConverting h;
     cancelledRef := b; gifRef := gifRef h; pc := pc h;
     history := history h |}.

Definition setGifRef (g : option GIF) (h : Hook) : Hook :=
  {| progressState := progressState h; isConverting := isConverting h;
     cancelledRef := cancelledRef h; gifRef := g; pc := pc h;
     history := history h |}.

Definition suspendAt (ph : Phase) (h : Hook) : Hook :=
  {| progressState := progressState h; isConverting := isConverting h;
     cancelledRef := cancelledRef h; gifRef := gifRef h; pc := ph;
     history := history h |}.

(** `video.currentTime = time`. *)
Definition setCurrentTime (t : Q) (h : Hook) : Hook :=
  {| progressState := progressState h; isConverting := isConverting h;
     cancelledRef := cancelledRef h; gifRef := gifRef h; pc := pc h;
     history := SetCurrentTime t :: history h |}.

(** `Math.max(1, Math.min(30, 31 - options.quality))`. *)
Definition encoderQuality (q : Q) : Q :=
  JS.Math_max 1 (JS.Math_min 30 (31 - q)).

(** ** `extractFrames`, `convert` and `cancel`

    One conversion runs against fixed options and a fixed browser.  The
    asynchronous functions are written as their continuations: each
    definition below is the code between two suspension points, and [step]
    resumes the suspended function with the event it was waiting for. *)

Section Conversion.

Variable options : ConversionOptions.
Variable browser : Browser.

(** Locals of `extractFrames`, in exact arithmetic: where the product
    `duration * fps` is rounded by the double multiplication across an
    integer, `Math.floor` of the code and [totalFramesOf] differ. *)
Definition frameInterval : Q := (1 / fps options)%Q.
Definition totalFramesOf : Z :=
  JS.Math_floor (duration browser * fps options)%Q.
Definition targetWidth : Z := orElse (width options) (videoWidth browser).
Definition targetHeight : Z := orElse (height options) (videoHeight browser).

(** The `catch (error)` block of `convert`, entered with the message of
    the thrown `Error`; `throw error` rejects the promise of `convert`. *)
Definition catchError (msg : string) (h : Hook) : Hook :=
  suspendAt (Settled (Rejected msg))
    (setIsConverting false
       (setProgress
          {| stage := error; progress := 0; framesExtracted := 0;
             totalFrames := 0; message := msg |} h)).

(** `convert`, from `URL.revokeObjectURL(videoUrl)` after the extraction
    to `gif.render()` inside the returned promise.  gif.js reports
    `progress` 0 from inside `render()`; that report is the first
    [gifProgress] event of a run, it changes the message only. *)
Definition encodeFrames (frames : list ImageData) (w hgt : Z) (h : Hook)
  : Hook :=
  if cancelledRef h then catchError "Conversion cancelled" h
  else
    let n := Z.of_nat (length frames) in
    let h1 :=
      setProgress
        {| stage := encoding; progress := 50; framesExtracted := n;
           totalFrames := n; message := "Encoding GIF..." |} h in
    let gif :=
      {| workers := orZ (hardwareConcurrency browser) 4;
         gifQuality := encoderQuality (quality options);
         gifWidth := w; gifHeight := hgt;
         workerScript := "/gif.worker.js";
         transparent := TRANSPARENT_COLOR;
         gifFrames := []; running := false |} in
    let h2 := setGifRef (Some gif) h1 in
    if negb (frameCanvasContext browser)
    then catchError "Failed to get frame canvas context" h2
    else
      let delay := JS.Math_round (1000 / fps options)%Q in
      let gif' :=
        fold_left
          (fun g frame =>
             addFrame g frame {| copy := true; delay := delay; dispose := 2 |})
          frames gif in
      suspendAt (AwaitRender frames)
        (setGifRef (Some (setRunning true gif')) h2).

(** The head of `for (let i = 0; i < totalFrames; i++)` up to the await:
    loop test, cancellation check, seek.  When the test fails
    `extractFrames` returns and `convert` goes on. *)
Definition sampleFrom (i : nat) (frames : list ImageData) (h : Hook)
  : Hook :=
  if Z.of_nat i <? totalFramesOf then
    if cancelledRef h then catchError "Conversion cancelled" h
    else
      suspendAt (AwaitSeeked i frames)
        (setCurrentTime (inject_Z (Z.of_nat i) * frameInterval)%Q h)
  else encodeFrames frames targetWidth targetHeight h.

(** The loop body after the await: read the canvas back, key it, push
    the frame, report progress, `i++`.  The read-back is taken to
    succeed, which `getImageData` does on a target of positive width and
    height (on an empty one it throws). *)
Definition captureFrame (raster : list Z) (i : nat)
  (frames : list ImageData) (h : Hook) : Hook :=
  let imageData :=
    {| data := alphaKey (transparentThreshold options) raster;
       imageWidth := targetWidth; imageHeight := targetHeight |} in
  let frames' := frames ++ [imageData] in
  let h1 :=
    setProgress
      {| stage := extracting;
         progress :=
           (inject_Z (Z.of_nat i + 1) / inject_Z totalFramesOf * 50)%Q;
         framesExtracted := Z.of_nat i + 1;
         totalFrames := totalFramesOf;
         message :=
           "Extracting frame " +:+ pretty (Z.of_nat i + 1) +:+ " of "
             +:+ pretty totalFramesOf |} h in
  sampleFrom (S i) frames' h1.

(** `extractFrames` from its entry to the first await. *)
Definition extractFrames (h : Hook) : Hook :=
  if negb (canvasContext browser)
  then catchError "Failed to get canvas context" h
  else sampleFrom 0 [] h.

(** `convert` from its entry to the first await.  The hook carries one
    conversion at a time: [convert] is meant for a hook on which none is
    in flight ([atRest] below), as the interface arranges by showing the
    cancel button instead of the convert button while one runs. *)
Definition convert (h : Hook) : Hook :=
  suspendAt AwaitMetadata
    (setProgress
       {| stage := extracting; progress := 0; framesExtracted := 0;
          totalFrames := 0; message := "Loading video..." |}
       (setIsConverting true (setCancelledRef false h))).

(** `cancel`.  `gif.abort()` stops the encoder and emits `abort`; the
    handler registered by the conversion that is rendering rejects the
    promise `convert` returned.  That promise was returned, not awaited,
    inside the `try`: its rejection does not pass through the `catch`
    block. *)
Definition cancel (h : Hook) : Hook :=
  let h1 := setCancelledRef true h in
  match gifRef h1 with
  | Some gif =>
      let h2 := setGifRef (Some (setRunning false gif)) h1 in
      match pc h2 with
      | AwaitRender _ =>
          suspendAt (Settled (Rejected "Conversion cancelled")) h2
      | _ => h2
      end
  | None => h1
  end.

(** gif.js `progress` handler. *)
Definition onProgress (p : Q) (frames : list ImageData) (h : Hook) : Hook :=
  let n := Z.of_nat (length frames) in
  setProgress
    {| stage := encoding; progress := (50 + p * 50)%Q;
       framesExtracted := n; totalFrames := n;
       message :=
         "Encoding GIF... " +:+ pretty (JS.Math_round (p * 100)%Q) +:+ "%" |}
    h.

(** gif.js `finished` handler. *)
Definition onFinished (blob : Blob) (frames : list ImageData) (h : Hook)
  : Hook :=
  let n := Z.of_nat (length frames) in
  suspendAt (Settled (Resolved blob))
    (setGifRef None
       (setIsConverting false
          (setProgress
             {| stage := complete; progress := 100; framesExtracted := n;
                totalFrames := n; message := "Conversion complete!" |} h))).

(** One event delivered to the hook.  An event nobody listens for at the
    current suspension point changes nothing.  The encoder delivers
    `progress` and `finished` only while it renders: gif.js emits nothing
    after `finished` or `abort`, and an event list with encoder events
    after the promise is settled is not a run of the hook (the handlers
    stay registered and would write). *)
Definition step (h : Hook) (e : Event) : Hook :=
  match e, pc h with
  | cancelCalled, _ => cancel h
  | loadedmetadata, AwaitMetadata => suspendAt AwaitCanPlay h
  | videoError, AwaitMetadata => catchError "Failed to load video" h
  | videoError, AwaitCanPlay => catchError "Failed to load video" h
  | canplaythrough, AwaitCanPlay => extractFrames h
  | seeked raster, AwaitSeeked i frames => captureFrame raster i frames h
  | gifProgress p, AwaitRender frames => onProgress p frames h
  | gifFinished blob, AwaitRender frames => onFinished blob frames h
  | _, _ => h
  end.

Definition run (h : Hook) (events : list Event) : Hook :=
  fold_left step events h.

End Conversion.

(** ** Reading the history *)

Definition stageOfEffect (e : Effect) : option Stage :=
  match e with
  | SetProgress p => Some (stage p)
  | SetCurrentTime _ => None
  end.

Definition seekOfEffect (e : Effect) : option Q :=
  match e with
  | SetCurrentTime t => Some t
  | SetProgress _ => None
  end.

(** Stages written and timestamps sought, oldest first. *)
Definition stagesWritten (hist : list Effect) : list Stage :=
  omap stageOfEffect (rev hist).

Definition seeks (hist : list Effect) : list Q :=
  omap seekOfEffect (rev hist).

(** No conversion is in flight on this hook: it was never started, or its
    promise is settled. *)
Definition atRest (h : Hook) : bool :=
  match pc h with
  | NotStarted | Settled _ => true
  | _ => false
  end.

Definition isSeeked (e : Event) : bool :=
  match e with
  | seeked _ => true
  | _ => false
  end.

(** Order of the progress stages: `idle`, then `extracting`, then
    `encoding`, then one of the two final stages. *)
Definition stageRank (s : Stage) : nat :=
  match s with
  | idle => 0
  | extracting => 1
  | encoding => 2
  | complete | error => 3
  end.

Definition finalStage (s : Stage) : bool :=
  match s with
  | complete | error => true
  | _ => false
  end.

(** [follows s s']: writing [s'] right after [s] respects the order; the
    hook either stays in a stage that is not final or moves to a later
    one. *)
Definition follows (s s' : Stage) : Prop :=
  (stageRank s < stageRank s')%nat \/ (s' = s /\ finalStage s = false).

(** The history of [h'] continues the history of [h], and the stages
    written in between, starting from the stage [h] shows, respect the
    order and end in the stage [h'] shows. *)
Definition Extends (h h' : Hook) : Prop :=
  exists added,
    history h' = added ++ history h /\
    Sorted follows (stage (progressState h) :: stagesWritten added) /\
    last (stage (progressState h) :: stagesWritten added)
    = Some (stage (progressState h')).

(** The stage shown while `convert` is suspended. *)
Definition PhaseStage (h : Hook) : Prop :=
  match pc h with
  | AwaitMetadata | AwaitCanPlay | AwaitSeeked _ _ =>
      stage (progressState h) = extracting
  | AwaitRender _ => stage (progressState h) = encoding
  | NotStarted | Settled _ => True
  end.

(** The frame `extractFrames` pushes for one canvas read-back. *)
Definition frameOf (options : ConversionOptions) (browser : Browser)
  (raster : list Z) : ImageData :=
  {| data := alphaKey (transparentThreshold options) raster;
     imageWidth := targetWidth options browser;
     imageHeight := targetHeight options browser |}.

(** The timestamp of sample [i]. *)
Definition sampleTime (options : ConversionOptions) (i : nat) : Q :=
  (inject_Z (Z.of_nat i) * frameInterval options)%Q.

(** What `gif.addFrame(frameCtx, { copy: true, delay, dispose: 2 })` has
    queued once every frame was submitted. *)
Definition submitted (options : ConversionOptions) (frames : list ImageData)
  : list (ImageData * FrameOptions) :=
  map (fun frame =>
         (frame,
          {| copy := true;
             delay := JS.Math_round (1000 / fps options)%Q;
             dispose := 2 |}))
    frames.

(** While `convert` waits for the encoder, `gifRef` holds the encoder
    with every extracted frame queued. *)
Definition Rendering (options : ConversionOptions) (h : Hook) : Prop :=
  forall frames,
    pc h = AwaitRender frames ->
    exists gif,
      gifRef h = Some gif /\ gifFrames gif = submitted options frames.

(** The progress state the `catch` block writes. *)
Definition errorProgress (msg : string) : ConversionProgress :=
  {| stage := error; progress := 0; framesExtracted := 0; totalFrames := 0;
     message := msg |}.

(** What the hook shows at each suspension point and after a failure: a
    rejected conversion either went through the `catch` block, or was
    cancelled while the encoder rendered and still shows `encoding`. *)
Definition Accounted (h : Hook) : Prop :=
  match pc h with
  | NotStarted | Settled (Resolved _) => True
  | AwaitMetadata | AwaitCanPlay | AwaitSeeked _ _ => isConverting h = true
  | AwaitRender _ =>
      isConverting h = true /\ stage (progressState h) = encoding
  | Settled (Rejected msg) =>
      (progressState h = errorProgress msg /\ isConverting h = false)
      \/ (msg = "Conversion cancelled"%string /\
          stage (progressState h) = encoding /\ isConverting h = true)
  end.

(** A concrete conversion used to exercise the statements: a one second,
    one pixel video sampled at 2 fps. *)
Definition demoOptions : ConversionOptions :=
  {| fps := 2; quality := 10; width := None; height := None;
     transparentThreshold := 128 |}.

Definition demoBrowser : Browser :=
  {| duration := 1; videoWidth := 1; videoHeight := 1;
     canvasContext := true; frameCanvasContext := true;
     hardwareConcurrency := 8 |}.

Definition demoLoad : list Event :=
  [loadedmetadata; canplaythrough].

Definition demoRasters : list (list Z) :=
  [[10; 20; 30; 200]; [1; 2; 3; 4]].

(** ** Further vocabulary *)

(** The pixel the keying loop writes. *)
Definition opaqueKey : Z * Z * Z * Z := (keyR, keyG, keyB, 255).

(** A frame in which every pixel is the opaque key. *)
Definition keyFrame (pixels : nat) : list Z :=
  concat (replicate pixels [keyR; keyG; keyB; 255]).

Definition isCancel (e : Event) : bool :=
  match e with
  | cancelCalled => true
  | _ => false
  end.

(** The progress states `convert` writes besides the per-frame one. *)
Definition loadingProgress : ConversionProgress :=
  {| stage := extracting; progress := 0; framesExtracted := 0;
     totalFrames := 0; message := "Loading video..." |}.

Definition encodingProgress (frames : list ImageData) : ConversionProgress :=
  {| stage := encoding; progress := 50;
     framesExtracted := Z.of_nat (length frames);
     totalFrames := Z.of_nat (length frames);
     message := "Encoding GIF..." |}.

Definition completeProgress (frames : list ImageData) : ConversionProgress :=
  {| stage := complete; progress := 100;
     framesExtracted := Z.of_nat (length frames);
     totalFrames := Z.of_nat (length frames);
     message := "Conversion complete!" |}.

(** The encoder as `new GIF({...})` leaves it, and as it is once every
    frame is queued and `render()` was called. *)
Definition newEncoder (options : ConversionOptions) (browser : Browser)
  : GIF :=
  {| workers := orZ (hardwareConcurrency browser) 4;
     gifQuality := encoderQuality (quality options);
     gifWidth := targetWidth options browser;
     gifHeight := targetHeight options browser;
     workerScript := "/gif.worker.js";
     transparent := TRANSPARENT_COLOR;
     gifFrames := []; running := false |}.

Definition startedEncoder (options : ConversionOptions) (browser : Browser)
  (frames : list ImageData) : GIF :=
  {| workers := orZ (hardwareConcurrency browser) 4;
     gifQuality := encoderQuality (quality options);
     gifWidth := targetWidth options browser;
     gifHeight := targetHeight options browser;
     workerScript := "/gif.worker.js";
     transparent := TRANSPARENT_COLOR;
     gifFrames := submitted options frames; running := true |}.


(** `convert` is suspended at one of its awaits. *)
Definition suspended (h : Hook) : bool :=
  match pc h with
  | AwaitMetadata | AwaitCanPlay | AwaitSeeked _ _ | AwaitRender _ => true
  | NotStarted | Settled _ => false
  end.

(** A frame as `extractFrames` pushes them: a keyed read-back of the
    target size. *)
Definition Extracted (options : ConversionOptions) (browser : Browser)
  (frame : ImageData) : Prop :=
  exists raster, frame = frameOf options browser raster.

(** What one run of `convert` on [h0] maintains: the seeks made so far are
    those of samples [0 .. k-1], never more than the frame count; while
    loading nothing was written but the loading state; while sampling and
    rendering the frames are one per answered seek. *)
Definition RunInv (options : ConversionOptions) (browser : Browser)
  (h0 h : Hook) : Prop :=
  exists k : nat,
    seeks (history h)
    = seeks (history h0) ++ map (sampleTime options) (seq 0 k) /\
    Z.of_nat k <= Z.max 0 (totalFramesOf options browser) /\
    match pc h with
    | NotStarted | Settled _ => True
    | AwaitMetadata | AwaitCanPlay =>
        history h = SetProgress loadingProgress :: history h0
    | AwaitSeeked i frames =>
        k = S i /\ length frames = i /\
        Forall (Extracted options browser) frames
    | AwaitRender frames =>
        Z.of_nat k = Z.max 0 (totalFramesOf options browser) /\
        length frames = k /\
        Forall (Extracted options browser) frames /\
        cancelledRef h = false /\
        gifRef h = Some (startedEncoder options browser frames)
    end.

(** A progress write within the scale: 0 to 50 while extracting, 50 to
    100 while encoding, and never more frames extracted than the total. *)
Definition progressInRange (e : Effect) : Prop :=
  match e with
  | SetProgress w =>
      (0 <= progress w <= 100)%Q /\
      (stage w = extracting -> (progress w <= 50)%Q) /\
      (stage w = encoding -> (50 <= progress w)%Q) /\
      0 <= framesExtracted w <= totalFrames w
  | SetCurrentTime _ => True
  end.

(** Two hooks that differ at most in the encoder `gifRef` holds. *)
Definition sameButEncoder (h h' : Hook) : Prop :=
  progressState h = progressState h' /\
  isConverting h = isConverting h' /\
  cancelledRef h = cancelledRef h' /\
  pc h = pc h' /\
  history h = history h' /\
  (gifRef h = None <-> gifRef h' = None).

(** Everything written to [h] since [h0] is a progress state within the
    scale. *)
Definition InRange (h0 h : Hook) : Prop :=
  exists added,
    history h = added ++ history h0 /\ Forall progressInRange added.

(** The messages `convert` rejects with. *)
Definition rejectionMessages : list string :=
  ["Failed to load video"; "Failed to get canvas context";
   "Conversion cancelled"; "Failed to get frame canvas context"]%string.

Definition KnownRejection (h : Hook) : Prop :=
  forall msg, pc h = Settled (Rejected msg) -> In msg rejectionMessages.

(** The events gif.js emits. *)
Definition isEncoderEvent (e : Event) : bool :=
  match e with
  | gifProgress _ | gifFinished _ => true
  | _ => false
  end.

(** An encoder report that is a fraction of the whole job. *)
Definition fractionReported (e : Event) : Prop :=
  match e with
  | gifProgress p => (0 <= p <= 1)%Q
  | _ => True
  end.

(** ** Helpers of the `App` component *)

(** `x.toFixed(1)` for a number that is not negative: the nearest number
    of tenths, the larger one at a tie, printed with one decimal. *)
Definition toFixed1 (x : Q) : string :=
  let n := Qfloor (x * 10 + (1 # 2))%Q in
  pretty (n / 10) +:+ "." +:+ pretty (n mod 10).

(** `formatFileSize`; a size in bytes is an integer, and its quotients by
    1024 and by 1024 * 1024 are exact. *)
Definition formatFileSize (bytes : Z) : string :=
  if bytes <? 1024 then pretty bytes +:+ " B"
  else if bytes <? 1024 * 1024
       then toFixed1 (inject_Z bytes / 1024)%Q +:+ " KB"
       else toFixed1 (inject_Z bytes / (1024 * 1024))%Q +:+ " MB".

(** `s.replace(pattern, replacement)` with a string pattern: the first
    occurrence is replaced. *)
Definition replaceFirst (pattern replacement s : string) : string :=
  match index 0 pattern s with
  | Some i =>
      substring 0 i s +:+ replacement
        +:+ substring (i + String.length pattern)
              (String.length s - (i + String.length pattern)) s
  | None => s
  end.

(** `a || b` on strings: the empty string is falsy. *)
Definition orString (a b : string) : string :=
  match a with
  | EmptyString => b
  | _ => a
  end.

(** The download name of `handleDownload`:
    `file?.name.replace('.webm', '.gif') || 'converted.gif'`. *)
Definition downloadName (file : option string) : string :=
  match file with
  | Some name => orString (replaceFirst ".webm" ".gif" name) "converted.gif"
  | None => "converted.gif"
  end.

(** [pattern] occurs in [s] at position [p]. *)
Definition occursAt (pattern s : string) (p : nat) : Prop :=
  substring p (String.length pattern) s = pattern.

(** Browsers for the edge cases: no sampling canvas, no canvas for the
    encoder, and a video shorter than one frame interval. *)
Definition demoBrowserNoCanvas : Browser :=
  {| duration := 1; videoWidth := 1; videoHeight := 1;
     canvasContext := false; frameCanvasContext := true;
     hardwareConcurrency := 8 |}.


Definition demoBrowserShort : Browser :=
  {| duration := 1 # 4; videoWidth := 1; videoHeight := 1;
     canvasContext := true; frameCanvasContext := true;
     hardwareConcurrency := 0 |}.

(** A complete run: load, two seeks answered, a report and the blob. *)
Definition demoRun : list Event :=
  demoLoad ++ map seeked demoRasters
    ++ [gifProgress (1 # 2); gifFinished [71; 73; 70]].

(** * Properties *)

(** ** Numbers *)

Lemma JS_lt_spec (a b : Q) : JS.lt a b = true <-> (a < b)%Q.
Proof.
  unfold JS.lt. rewrite negb_true_iff.
  destruct (Qle_bool b a) eqn:E.
  - apply Qle_bool_iff in E. split; [discriminate | intros H; lra].
  - split; [intros _ | reflexivity].
    apply Qnot_le_lt. intros H. apply Qle_bool_iff in H. congruence.
Qed.

Lemma JS_lt_false (a b : Q) : JS.lt a b = false <-> (b <= a)%Q.
Proof. unfold JS.lt. rewrite negb_false_iff. apply Qle_bool_iff. Qed.

Lemma ColorKey_green : ColorKey = (0, 255, 0).
Proof. reflexivity. Qed.

(** ** The keying loop, pixel by pixel *)

Lemma keyLoop_past_end fuel t (d : list Z) j :
  (length d <= j)%nat -> keyLoop fuel t d j = d.
Proof.
  intros Hj. destruct fuel as [|fuel]; simpl; [reflexivity|].
  destruct (Nat.ltb_spec j (length d)); [lia | reflexivity].
Qed.

Lemma keyPixel_short t (d : list Z) j :
  (length d <= j + 3)%nat -> keyPixel t d j = d.
Proof.
  intros Hj. unfold keyPixel.
  rewrite (lookup_ge_None_2 d (j + 3)) by lia. reflexivity.
Qed.

Lemma keyPixel_chunk t (pre rest : list Z) r g b a :
  keyPixel t (pre ++ r :: g :: b :: a :: rest) (length pre)
  = pre ++ (if JS.lt (inject_Z a) t
            then [keyR; keyG; keyB; 255]
            else [r; g; b; a]) ++ rest.
Proof.
  unfold keyPixel.
  rewrite lookup_app_r by lia.
  replace (length pre + 3 - length pre)%nat with 3%nat by lia. simpl.
  destruct (JS.lt (inject_Z a) t); [|reflexivity].
  rewrite !insert_app_r_alt by lia.
  replace (length pre - length pre)%nat with 0%nat by lia.
  replace (length pre + 1 - length pre)%nat with 1%nat by lia.
  replace (length pre + 2 - length pre)%nat with 2%nat by lia.
  replace (length pre + 3 - length pre)%nat with 3%nat by lia.
  reflexivity.
Qed.

Lemma keyLoop_chunks fuel : forall t (pre rest : list Z),
  (length rest <= fuel)%nat ->
  keyLoop fuel t (pre ++ rest) (length pre) = pre ++ keyChunks t rest.
Proof.
  induction fuel as [|fuel IH]; intros t pre rest Hf.
  - destruct rest; [reflexivity | simpl in Hf; lia].
  - cbn [keyLoop].
    destruct rest as [|r [|g [|b [|a rest]]]].
    + cbn [keyChunks]. rewrite app_nil_r, Nat.ltb_irrefl. reflexivity.
    + rewrite keyPixel_short, keyLoop_past_end;
        rewrite ?length_app; simpl; try lia.
      destruct (_ <? _)%nat; reflexivity.
    + rewrite keyPixel_short, keyLoop_past_end;
        rewrite ?length_app; simpl; try lia.
      destruct (_ <? _)%nat; reflexivity.
    + rewrite keyPixel_short, keyLoop_past_end;
        rewrite ?length_app; simpl; try lia.
      destruct (_ <? _)%nat; reflexivity.
    + destruct (Nat.ltb_spec (length pre)
                  (length (pre ++ r :: g :: b :: a :: rest))) as [_|Hge];
        [| rewrite length_app in Hge; simpl in Hge; lia].
      rewrite keyPixel_chunk.
      set (c := if JS.lt (inject_Z a) t then _ else _).
      assert (Hc : length c = 4%nat)
        by (subst c; destruct (JS.lt _ _); reflexivity).
      rewrite (app_assoc pre c rest).
      replace (length pre + 4)%nat with (length (pre ++ c))
        by (rewrite length_app; lia).
      rewrite IH by (simpl in Hf; lia).
      rewrite <- app_assoc. reflexivity.
Qed.

(** The loop of the source and its chunked reading agree on every array. *)
Lemma alphaKey_chunks t (d : list Z) : alphaKey t d = keyChunks t d.
Proof. unfold alphaKey. apply (keyLoop_chunks (length d) t [] d). lia. Qed.

Lemma pixelAt_short (d : list Z) k :
  (length d < 4)%nat -> pixelAt d k = None.
Proof.
  intros Hd. unfold pixelAt.
  rewrite (lookup_ge_None_2 d (4 * k + 3)) by lia.
  destruct (d !! (4 * k)%nat); [|reflexivity].
  destruct (d !! (4 * k + 1)%nat); [|reflexivity].
  destruct (d !! (4 * k + 2)%nat); reflexivity.
Qed.

Lemma pixelAt_here r g b a (rest : list Z) :
  pixelAt (r :: g :: b :: a :: rest) 0 = Some (r, g, b, a).
Proof. reflexivity. Qed.

Lemma pixelAt_next r g b a (rest : list Z) k :
  pixelAt (r :: g :: b :: a :: rest) (S k) = pixelAt rest k.
Proof.
  unfold pixelAt.
  replace (4 * S k)%nat with (S (S (S (S (4 * k))))) by lia.
  reflexivity.
Qed.

Lemma keyChunks_pixelAt t : forall k (d : list Z) p,
  pixelAt d k = Some p -> pixelAt (keyChunks t d) k = Some (keyed t p).
Proof.
  induction k as [|k IH]; intros d p Hp.
  - destruct d as [|r [|g [|b [|a rest]]]];
      try (rewrite pixelAt_short in Hp by (simpl; lia); discriminate).
    rewrite pixelAt_here in Hp. injection Hp as <-.
    cbn [keyChunks]. unfold keyed. simpl alphaOf.
    destruct (JS.lt (inject_Z a) t); reflexivity.
  - destruct d as [|r [|g [|b [|a rest]]]];
      try (rewrite pixelAt_short in Hp by (simpl; lia); discriminate).
    rewrite pixelAt_next in Hp.
    cbn [keyChunks].
    destruct (JS.lt (inject_Z a) t); simpl app;
      rewrite pixelAt_next; apply IH; exact Hp.
Qed.

Lemma alphaKey_pixelAt t (d : list Z) k p :
  pixelAt d k = Some p -> pixelAt (alphaKey t d) k = Some (keyed t p).
Proof. rewrite alphaKey_chunks. apply keyChunks_pixelAt. Qed.

Lemma keyChunks_idem t : forall (n : nat) (d : list Z),
  (length d <= n)%nat -> keyChunks t (keyChunks t d) = keyChunks t d.
Proof.
  induction n as [|n IH]; intros d Hn.
  - destruct d; [reflexivity | simpl in Hn; lia].
  - destruct d as [|r [|g [|b [|a rest]]]]; try reflexivity.
    cbn [keyChunks].
    destruct (JS.lt (inject_Z a) t) eqn:Ea; simpl app; cbn [keyChunks].
    + rewrite IH by (simpl in Hn; lia).
      destruct (JS.lt (inject_Z 255) t); reflexivity.
    + rewrite Ea, IH by (simpl in Hn; lia). reflexivity.
Qed.

(** C2, as stated, fails: a pixel whose alpha is at or above the threshold
    is not touched by the loop, so with threshold 128 the pixel
    (10, 20, 30, 200) leaves the keying step with alpha 200. *)
Lemma alpha_not_forced_opaque :
  ~ (forall p,
        pixelAt (alphaKey 128 [10; 20; 30; 200]) 0 = Some p ->
        alphaOf p = 255).
Proof.
  intros H. specialize (H (10, 20, 30, 200) eq_refl). discriminate H.
Qed.

(** C2 (amended): after the keying step a pixel whose input alpha is below
    the threshold has alpha exactly 255, and a pixel whose input alpha is
    at or above the threshold keeps the alpha it had. *)
Theorem alpha_after_keying t (d : list Z) k p :
  pixelAt d k = Some p ->
  exists p',
    pixelAt (alphaKey t d) k = Some p' /\
    ((inject_Z (alphaOf p) < t)%Q -> alphaOf p' = 255) /\
    ((t <= inject_Z (alphaOf p))%Q -> alphaOf p' = alphaOf p).
Proof.
  intros Hp. exists (keyed t p). split; [apply alphaKey_pixelAt, Hp|].
  unfold keyed. split; intros Ha.
  - apply JS_lt_spec in Ha. rewrite Ha. reflexivity.
  - apply JS_lt_false in Ha. rewrite Ha. reflexivity.
Qed.

Lemma alpha_after_keying_witness :
  exists p',
    pixelAt (alphaKey 128 [10; 20; 30; 200; 1; 2; 3; 4]) 1 = Some p' /\
    ((inject_Z 4 < 128)%Q -> alphaOf p' = 255) /\
    ((128 <= inject_Z 4)%Q -> alphaOf p' = 4).
Proof.
  apply (alpha_after_keying 128 [10; 20; 30; 200; 1; 2; 3; 4] 1 (1, 2, 3, 4)).
  reflexivity.
Defined.

(** C3: a pixel whose input alpha is strictly below the threshold leaves
    the keying step with RGB equal to the colour key; a pixel whose input
    alpha is at or above the threshold (equality included) keeps its
    RGB. *)
Theorem rgb_after_keying t (d : list Z) k p :
  pixelAt d k = Some p ->
  exists p',
    pixelAt (alphaKey t d) k = Some p' /\
    ((inject_Z (alphaOf p) < t)%Q -> rgbOf p' = ColorKey) /\
    ((t <= inject_Z (alphaOf p))%Q -> rgbOf p' = rgbOf p).
Proof.
  intros Hp. exists (keyed t p). split; [apply alphaKey_pixelAt, Hp|].
  unfold keyed. split; intros Ha.
  - apply JS_lt_spec in Ha. rewrite Ha. reflexivity.
  - apply JS_lt_false in Ha. rewrite Ha. reflexivity.
Qed.

Lemma rgb_after_keying_witness :
  exists p',
    pixelAt (alphaKey 128 [10; 20; 30; 128; 1; 2; 3; 127]) 0 = Some p' /\
    ((inject_Z 128 < 128)%Q -> rgbOf p' = ColorKey) /\
    ((128 <= inject_Z 128)%Q -> rgbOf p' = (10, 20, 30)).
Proof.
  apply (rgb_after_keying 128 [10; 20; 30; 128; 1; 2; 3; 127] 0
           (10, 20, 30, 128)).
  reflexivity.
Defined.

(** C4: the keying step is idempotent, for every array and every
    threshold (those of [0,255] included): a second pass over a keyed
    frame changes nothing. *)
Theorem alphaKey_idempotent t (d : list Z) :
  alphaKey t (alphaKey t d) = alphaKey t d.
Proof.
  rewrite !alphaKey_chunks. apply (keyChunks_idem t (length d)). lia.
Qed.

(** ** The encoder object *)

Lemma addFrames_all o : forall (frames : list ImageData) (gif : GIF),
  fold_left (fun g frame => addFrame g frame o) frames gif
  = {| workers := workers gif; gifQuality := gifQuality gif;
       gifWidth := gifWidth gif; gifHeight := gifHeight gif;
       workerScript := workerScript gif; transparent := transparent gif;
       gifFrames := gifFrames gif ++ map (fun frame => (frame, o)) frames;
       running := running gif |}.
Proof.
  induction frames as [|f frames IH]; intros gif.
  - destruct gif. cbn. rewrite app_nil_r. reflexivity.
  - cbn [fold_left]. rewrite IH. cbn. rewrite <- app_assoc. reflexivity.
Qed.

(** ** Quality *)

(** C9: the encoder receives `encoderQuality quality`; it always lies in
    [1,30], equals [31 - q] for a quality [q] of [1,30], and is strictly
    decreasing there. *)
Theorem encoder_quality options browser frames w hgt h (q2 : Q) :
  gifQuality <$>
    gifRef (encodeFrames options browser frames w hgt (setCancelledRef false h))
  = Some (encoderQuality (quality options)) /\
  (1 <= encoderQuality (quality options) <= 30)%Q /\
  ((1 <= quality options <= 30)%Q ->
   (encoderQuality (quality options) == 31 - quality options)%Q) /\
  ((1 <= quality options)%Q -> (quality options < q2)%Q -> (q2 <= 30)%Q ->
   (encoderQuality q2 < encoderQuality (quality options))%Q).
Proof.
  split.
  - unfold encodeFrames. cbn [cancelledRef setCancelledRef].
    rewrite addFrames_all.
    destruct (frameCanvasContext browser); reflexivity.
  - unfold encoderQuality, JS.Math_max, JS.Math_min.
    set (q := quality options).
    destruct (Q.max_spec 1 (Qmin 30 (31 - q))) as [[? E1]|[? E1]];
      destruct (Q.min_spec 30 (31 - q)) as [[? E2]|[? E2]];
      destruct (Q.max_spec 1 (Qmin 30 (31 - q2))) as [[? E3]|[? E3]];
      destruct (Q.min_spec 30 (31 - q2)) as [[? E4]|[? E4]];
      rewrite ?E1, ?E3 in *; rewrite ?E2, ?E4 in *;
      repeat split; intros; rewrite ?E1, ?E2, ?E3, ?E4; lra.
Qed.

(** ** Histories *)

Lemma stagesWritten_app (a b : list Effect) :
  stagesWritten (a ++ b) = stagesWritten b ++ stagesWritten a.
Proof. unfold stagesWritten. rewrite rev_app_distr, omap_app. reflexivity. Qed.

Lemma seeks_progress p (hist : list Effect) :
  seeks (SetProgress p :: hist) = seeks hist.
Proof.
  unfold seeks. cbn [rev]. rewrite omap_app. cbn. apply app_nil_r.
Qed.

Lemma seeks_time t (hist : list Effect) :
  seeks (SetCurrentTime t :: hist) = seeks hist ++ [t].
Proof. unfold seeks. cbn [rev]. rewrite omap_app. reflexivity. Qed.

Lemma Sorted_chain {A} (R : A -> A -> Prop) : forall (l1 l2 : list A) a b,
  Sorted R (a :: l1) -> last (a :: l1) = Some b -> Sorted R (b :: l2) ->
  Sorted R (a :: l1 ++ l2) /\ last (a :: l1 ++ l2) = last (b :: l2).
Proof.
  induction l1 as [|x l1 IH]; intros l2 a b Hs Hl Hs2.
  - cbn in Hl. injection Hl as ->. split; [exact Hs2 | reflexivity].
  - apply Sorted_inv in Hs as [Hs Hr]. apply HdRel_inv in Hr.
    destruct (IH l2 x b Hs Hl Hs2) as [IH1 IH2].
    split.
    + cbn [app]. constructor; [exact IH1 | constructor; exact Hr].
    + exact IH2.
Qed.

Lemma Extends_refl h : Extends h h.
Proof.
  exists []. repeat split. repeat constructor.
Qed.

Lemma Extends_trans h1 h2 h3 : Extends h1 h2 -> Extends h2 h3 -> Extends h1 h3.
Proof.
  intros (a1 & E1 & S1 & L1) (a2 & E2 & S2 & L2).
  exists (a2 ++ a1). rewrite E2, E1, app_assoc, stagesWritten_app.
  split; [reflexivity|].
  destruct (Sorted_chain follows _ _ _ _ S1 L1 S2) as [S L].
  split; [exact S | rewrite L; exact L2].
Qed.

Lemma Extends_quiet h h' :
  history h' = history h -> progressState h' = progressState h ->
  Extends h h'.
Proof.
  intros Hh Hp. exists []. rewrite Hh, Hp. repeat split. repeat constructor.
Qed.

Lemma Extends_setCurrentTime t h : Extends h (setCurrentTime t h).
Proof.
  exists [SetCurrentTime t]. repeat split. repeat constructor.
Qed.

Lemma Extends_setProgress p h :
  follows (stage (progressState h)) (stage p) -> Extends h (setProgress p h).
Proof.
  intros Hf. exists [SetProgress p]. repeat split.
  cbn. apply Sorted_cons; [repeat constructor | apply HdRel_cons, Hf].
Qed.

(** Peels the outermost state update off the right-hand side. *)
Ltac extends_step :=
  lazymatch goal with
  | |- Extends ?h ?h => apply Extends_refl
  | |- Extends ?h (suspendAt _ ?x) =>
      apply (Extends_trans h x); [| apply Extends_quiet; reflexivity]
  | |- Extends ?h (setIsConverting _ ?x) =>
      apply (Extends_trans h x); [| apply Extends_quiet; reflexivity]
  | |- Extends ?h (setGifRef _ ?x) =>
      apply (Extends_trans h x); [| apply Extends_quiet; reflexivity]
  | |- Extends ?h (setCancelledRef _ ?x) =>
      apply (Extends_trans h x); [| apply Extends_quiet; reflexivity]
  | |- Extends ?h (setCurrentTime _ ?x) =>
      apply (Extends_trans h x); [| apply Extends_setCurrentTime]
  | |- Extends ?h (setProgress _ ?x) =>
      apply (Extends_trans h x); [| apply Extends_setProgress]
  end.

Ltac follows_now :=
  unfold follows; cbn;
  first [ left; lia | right; split; reflexivity ].

Section Runs.

Variable options : ConversionOptions.
Variable browser : Browser.


Lemma run_app h (e1 e2 : list Event) :
  run options browser h (e1 ++ e2)
  = run options browser (run options browser h e1) e2.
Proof. apply fold_left_app. Qed.

Lemma run_cons h e (evs : list Event) :
  run options browser h (e :: evs)
  = run options browser (step options browser h e) evs.
Proof. reflexivity. Qed.

Lemma catchError_extends msg h :
  finalStage (stage (progressState h)) = false ->
  Extends h (catchError msg h).
Proof.
  intros Hs. unfold catchError. repeat extends_step.
  unfold follows. left. destruct (stage (progressState h)); cbn in *;
    try discriminate; lia.
Qed.

Lemma encodeFrames_extends frames w hgt h :
  stage (progressState h) = extracting ->
  Extends h (encodeFrames options browser frames w hgt h)
  /\ PhaseStage (encodeFrames options browser frames w hgt h).
Proof.
  intros Hs. unfold encodeFrames.
  destruct (cancelledRef h).
  - split; [apply catchError_extends; rewrite Hs; reflexivity | exact I].
  - destruct (frameCanvasContext browser); cbn [negb].
    + split; [| reflexivity].
      repeat extends_step. rewrite Hs. follows_now.
    + split; [| exact I].
      eapply Extends_trans; [| apply catchError_extends; reflexivity].
      repeat extends_step. rewrite Hs. follows_now.
Qed.

Lemma sampleFrom_extends i frames h :
  stage (progressState h) = extracting ->
  Extends h (sampleFrom options browser i frames h)
  /\ PhaseStage (sampleFrom options browser i frames h).
Proof.
  intros Hs. unfold sampleFrom.
  destruct (_ <? _).
  - destruct (cancelledRef h).
    + split; [apply catchError_extends; rewrite Hs; reflexivity | exact I].
    + split; [repeat extends_step | exact Hs].
  - apply encodeFrames_extends, Hs.
Qed.

Lemma captureFrame_extends raster i frames h :
  stage (progressState h) = extracting ->
  Extends h (captureFrame options browser raster i frames h)
  /\ PhaseStage (captureFrame options browser raster i frames h).
Proof.
  intros Hs. unfold captureFrame.
  match goal with
  | |- Extends _ (sampleFrom options browser ?j ?fr ?h1) /\ _ =>
      destruct (sampleFrom_extends j fr h1 eq_refl) as [E P]
  end.
  split; [| exact P].
  eapply Extends_trans; [| exact E].
  extends_step; [apply Extends_refl|]. rewrite Hs. follows_now.
Qed.

Lemma cancel_extends h :
  Extends h (cancel h) /\ (PhaseStage h -> PhaseStage (cancel h)).
Proof.
  unfold cancel. cbn [gifRef setCancelledRef].
  destruct (gifRef h) as [gif|].
  - cbn [pc setGifRef setCancelledRef]. unfold PhaseStage.
    destruct (pc h) eqn:E;
      (split; [repeat extends_step | cbn; rewrite ?E; auto]).
  - split; [repeat extends_step | unfold PhaseStage; cbn; auto].
Qed.

Lemma step_extends h e :
  PhaseStage h ->
  Extends h (step options browser h e)
  /\ PhaseStage (step options browser h e).
Proof.
  intros HP. unfold step.
  destruct e; try (destruct (cancel_extends h); split; auto; fail);
    unfold PhaseStage in HP; destruct (pc h) eqn:E;
    try (split; [apply Extends_refl | unfold PhaseStage; rewrite E; exact HP]).
  - split; [repeat extends_step | exact HP].
  - unfold extractFrames. destruct (canvasContext browser); cbn [negb].
    + apply sampleFrom_extends, HP.
    + split; [apply catchError_extends; rewrite HP; reflexivity | exact I].
  - split; [apply catchError_extends; rewrite HP; reflexivity | exact I].
  - split; [apply catchError_extends; rewrite HP; reflexivity | exact I].
  - apply captureFrame_extends, HP.
  - split.
    + unfold onProgress. extends_step; [apply Extends_refl|].
      rewrite HP. follows_now.
    + unfold PhaseStage, onProgress. cbn [pc setProgress]. rewrite E.
      reflexivity.
  - split; [| exact I].
    unfold onFinished. repeat extends_step. rewrite HP. follows_now.
Qed.

Lemma run_extends (evs : list Event) : forall h,
  PhaseStage h ->
  Extends h (run options browser h evs)
  /\ PhaseStage (run options browser h evs).
Proof.
  induction evs as [|e evs IH]; intros h HP.
  - split; [apply Extends_refl | exact HP].
  - rewrite run_cons.
    destruct (step_extends h e HP) as [E1 P1].
    destruct (IH _ P1) as [E2 P2].
    split; [exact (Extends_trans _ _ _ E1 E2) | exact P2].
Qed.

(** C7: the stages written by one run of `convert`, read after the
    initial `idle`, respect the order idle, extracting, encoding,
    complete or error: every write stays in a stage that is not final or
    moves to a later one. *)
Theorem stages_ordered h0 (evs : list Event) :
  atRest h0 = true ->
  exists written,
    history (run options browser (convert h0) evs) = written ++ history h0 /\
    Sorted follows (idle :: stagesWritten written).
Proof.
  intros _.
  destruct (run_extends evs (convert h0) eq_refl) as [(added & E & S & _) _].
  exists (added ++ [SetProgress
                      {| stage := extracting; progress := 0;
                         framesExtracted := 0; totalFrames := 0;
                         message := "Loading video..." |}]).
  split.
  - rewrite E, <- app_assoc. reflexivity.
  - rewrite stagesWritten_app.
    apply Sorted_cons; [exact S | apply HdRel_cons; follows_now].
Qed.

(** ** Resuming the sampling loop *)


Lemma sampleFrom_done i frames h :
  totalFramesOf options browser <= Z.of_nat i ->
  sampleFrom options browser i frames h
  = encodeFrames options browser frames
      (targetWidth options browser) (targetHeight options browser) h.
Proof.
  intros Hi. unfold sampleFrom.
  destruct (Z.ltb_spec (Z.of_nat i) (totalFramesOf options browser)); [lia|].
  reflexivity.
Qed.

Lemma sampleFrom_cancelled i frames h :
  cancelledRef h = true ->
  pc (sampleFrom options browser i frames h)
  = Settled (Rejected "Conversion cancelled").
Proof.
  intros Hc. unfold sampleFrom, encodeFrames. rewrite Hc.
  destruct (_ <? _); reflexivity.
Qed.

Lemma encodeFrames_rendering frames w hgt h fr :
  pc (encodeFrames options browser frames w hgt h) = AwaitRender fr ->
  exists gif,
    gifRef (encodeFrames options browser frames w hgt h) = Some gif /\
    gifFrames gif = submitted options fr.
Proof.
  unfold encodeFrames. destruct (cancelledRef h); [discriminate|].
  destruct (frameCanvasContext browser); cbn [negb]; [|discriminate].
  cbn [pc suspendAt]. intros [= <-].
  eexists. split; [reflexivity|].
  cbn [gifFrames setRunning]. rewrite addFrames_all. reflexivity.
Qed.

Lemma sampleFrom_rendering i frames h :
  Rendering options (sampleFrom options browser i frames h).
Proof.
  intros fr. unfold sampleFrom.
  destruct (_ <? _); [| apply encodeFrames_rendering].
  destruct (cancelledRef h); discriminate.
Qed.

Lemma step_rendering h e :
  Rendering options h -> Rendering options (step options browser h e).
Proof.
  intros Inv fr. unfold step.
  destruct e.
  5: { unfold cancel. cbn [gifRef setCancelledRef].
       destruct (gifRef h) as [gif|] eqn:G.
       - cbn [pc setGifRef setCancelledRef].
         destruct (pc h) eqn:E; cbn [pc setGifRef setCancelledRef suspendAt];
           rewrite ?E; discriminate.
       - cbn [pc setCancelledRef]. intros Hp.
         destruct (Inv fr Hp) as (gif & Hg & _). congruence. }
  all: destruct (pc h) eqn:E; try discriminate;
    try exact (Inv fr).
  - unfold extractFrames. destruct (canvasContext browser); cbn [negb];
      [apply sampleFrom_rendering | discriminate].
  - apply sampleFrom_rendering.
Qed.

Lemma run_rendering (evs : list Event) : forall h,
  Rendering options h -> Rendering options (run options browser h evs).
Proof.
  induction evs as [|e evs IH]; intros h Inv; [exact Inv|].
  rewrite run_cons. apply IH, step_rendering, Inv.
Qed.

Lemma convert_rendering h0 : Rendering options (convert h0).
Proof. intros fr. discriminate. Qed.

(** C8: when the frames are handed to the encoder, every one of them is
    queued with delay `Math.round(1000 / fps)` and disposal 2, the same
    for all frames of the conversion. *)
Theorem frames_submitted h0 (evs : list Event) frames :
  atRest h0 = true ->
  pc (run options browser (convert h0) evs) = AwaitRender frames ->
  exists gif,
    gifRef (run options browser (convert h0) evs) = Some gif /\
    map fst (gifFrames gif) = frames /\
    Forall (fun queued =>
              delay (snd queued) = JS.Math_round (1000 / fps options)%Q /\
              dispose (snd queued) = 2)
      (gifFrames gif).
Proof.
  intros _ Hp.
  destruct (run_rendering evs _ (convert_rendering h0) frames Hp)
    as (gif & Hg & Hf).
  exists gif. split; [exact Hg|]. rewrite Hf. unfold submitted. split.
  - rewrite map_map. cbn [fst]. apply map_id.
  - apply Forall_map, Forall_forall. intros frame _. split; reflexivity.
Qed.

(** ** Sampling *)

Lemma step_seeked h raster i frames :
  pc h = AwaitSeeked i frames ->
  step options browser h (seeked raster)
  = captureFrame options browser raster i frames h.
Proof. intros E. unfold step. rewrite E. reflexivity. Qed.

(** ** Cancellation *)

Lemma cancel_pc_other h :
  (forall frames, pc h <> AwaitRender frames) -> pc (cancel h) = pc h.
Proof.
  intros Hn. unfold cancel. cbn [gifRef setCancelledRef].
  destruct (gifRef h); [| reflexivity].
  cbn [pc setGifRef setCancelledRef].
  destruct (pc h) eqn:E; cbn [pc setGifRef setCancelledRef suspendAt];
    rewrite ?E; try reflexivity.
  exfalso. exact (Hn _ eq_refl).
Qed.

Lemma cancel_sets_flag h : cancelledRef (cancel h) = true.
Proof.
  unfold cancel. cbn [gifRef setCancelledRef].
  destruct (gifRef h); [| reflexivity].
  cbn [pc setGifRef setCancelledRef]. destruct (pc h); reflexivity.
Qed.

Lemma cancel_rendering h frames :
  Rendering options h -> pc h = AwaitRender frames ->
  pc (cancel h) = Settled (Rejected "Conversion cancelled").
Proof.
  intros Inv E. destruct (Inv frames E) as (gif & Hg & _).
  unfold cancel. cbn [gifRef setCancelledRef]. rewrite Hg.
  cbn [pc setGifRef setCancelledRef]. rewrite E. reflexivity.
Qed.

Lemma settled_step h e r :
  pc h = Settled r -> pc (step options browser h e) = Settled r.
Proof.
  intros E. unfold step. destruct e; rewrite ?E; try reflexivity.
  rewrite cancel_pc_other; [exact E | intros fr; rewrite E; discriminate].
Qed.

Lemma settled_run (evs : list Event) : forall h r,
  pc h = Settled r -> pc (run options browser h evs) = Settled r.
Proof.
  induction evs as [|e evs IH]; intros h r E; [exact E|].
  rewrite run_cons. apply IH, settled_step, E.
Qed.

Lemma cancelled_waits h e i frames :
  pc h = AwaitSeeked i frames -> cancelledRef h = true ->
  isSeeked e = false ->
  pc (step options browser h e) = AwaitSeeked i frames
  /\ cancelledRef (step options browser h e) = true.
Proof.
  intros E Hc He. unfold step.
  destruct e; try discriminate He; rewrite ?E;
    try (split; [reflexivity || assumption | assumption]).
  split; [| apply cancel_sets_flag].
  rewrite cancel_pc_other; [exact E | intros fr; rewrite E; discriminate].
Qed.

Lemma cancelled_seeked h raster i frames :
  pc h = AwaitSeeked i frames -> cancelledRef h = true ->
  pc (step options browser h (seeked raster))
  = Settled (Rejected "Conversion cancelled").
Proof.
  intros E Hc. rewrite (step_seeked _ raster i frames E).
  unfold captureFrame. apply sampleFrom_cancelled. exact Hc.
Qed.

(** After `cancel()` the loop fails at its next check, which it reaches
    when the pending seek is answered. *)
Lemma cancelled_run (post : list Event) : forall h i frames,
  pc h = AwaitSeeked i frames -> cancelledRef h = true ->
  (existsb isSeeked post = false ->
   pc (run options browser h post) = AwaitSeeked i frames
   /\ cancelledRef (run options browser h post) = true)
  /\ (existsb isSeeked post = true ->
      pc (run options browser h post)
      = Settled (Rejected "Conversion cancelled")).
Proof.
  induction post as [|e post IH]; intros h i frames E Hc.
  - split; [split; assumption | discriminate].
  - rewrite run_cons. cbn [existsb].
    destruct (isSeeked e) eqn:He.
    + split; [discriminate | intros _].
      destruct e; try discriminate He.
      apply settled_run, (cancelled_seeked _ _ i frames); assumption.
    + destruct (cancelled_waits h e i frames E Hc He) as [E' Hc'].
      apply (IH _ i frames E' Hc').
Qed.

(** C5: a `cancel()` that arrives while the conversion waits for a seek
    or for the encoder makes it fail with `Conversion cancelled`, and it
    never resolves with a blob.  While encoding the rejection is
    immediate; while extracting the flag is read at the next check of the
    loop, reached as soon as the pending seek is answered, and until then
    the conversion is still waiting for that seek. *)
Theorem cancel_fails_conversion h0 (pre post : list Event) :
  atRest h0 = true ->
  (forall frames,
      pc (run options browser (convert h0) pre) = AwaitRender frames ->
      pc (run options browser (convert h0) (pre ++ cancelCalled :: post))
      = Settled (Rejected "Conversion cancelled"))
  /\ (forall i frames,
         pc (run options browser (convert h0) pre) = AwaitSeeked i frames ->
         (existsb isSeeked post = true ->
          pc (run options browser (convert h0) (pre ++ cancelCalled :: post))
          = Settled (Rejected "Conversion cancelled"))
         /\ (existsb isSeeked post = false ->
             pc (run options browser (convert h0)
                   (pre ++ cancelCalled :: post))
             = AwaitSeeked i frames)
         /\ (forall blob,
                pc (run options browser (convert h0)
                      (pre ++ cancelCalled :: post))
                <> Settled (Resolved blob))).
Proof.
  intros _. rewrite run_app, run_cons.
  set (s := run options browser (convert h0) pre).
  assert (Inv : Rendering options s)
    by apply run_rendering, convert_rendering.
  change (step options browser s cancelCalled) with (cancel s).
  split.
  - intros frames E. apply settled_run, (cancel_rendering s frames Inv E).
  - intros i frames E.
    assert (E' : pc (cancel s) = AwaitSeeked i frames).
    { rewrite cancel_pc_other; [exact E|].
      intros fr. rewrite E. discriminate. }
    destruct (cancelled_run post (cancel s) i frames E'
                (cancel_sets_flag s)) as [Hwait Hfail].
    split; [exact Hfail|]. split.
    + intros Hp. apply Hwait, Hp.
    + intros blob. destruct (existsb isSeeked post) eqn:Hp.
      * rewrite (Hfail eq_refl). discriminate.
      * destruct (Hwait eq_refl) as [-> _]. discriminate.
Qed.

(** ** Progress *)


(** ** Failures *)

Lemma catchError_accounted msg h : Accounted (catchError msg h).
Proof. left. split; reflexivity. Qed.

Lemma encodeFrames_accounted frames w hgt h :
  isConverting h = true ->
  Accounted (encodeFrames options browser frames w hgt h).
Proof.
  intros Hi. unfold encodeFrames.
  destruct (cancelledRef h); [apply catchError_accounted|].
  destruct (frameCanvasContext browser); cbn [negb];
    [| apply catchError_accounted].
  split; [exact Hi | reflexivity].
Qed.

Lemma sampleFrom_accounted i frames h :
  isConverting h = true ->
  Accounted (sampleFrom options browser i frames h).
Proof.
  intros Hi. unfold sampleFrom.
  destruct (_ <? _); [| apply encodeFrames_accounted, Hi].
  destruct (cancelledRef h); [apply catchError_accounted | exact Hi].
Qed.

Lemma cancel_accounted h : Accounted h -> Accounted (cancel h).
Proof.
  unfold cancel. cbn [gifRef setCancelledRef].
  destruct (gifRef h) as [gif|]; [| intros A; exact A].
  cbn [pc setGifRef setCancelledRef]. unfold Accounted.
  destruct (pc h) eqn:E; cbn [pc setGifRef setCancelledRef suspendAt];
    rewrite ?E; try (intros A; exact A).
  intros [Hi Hs]. right. repeat split; assumption.
Qed.

Lemma step_accounted h e :
  Accounted h -> Accounted (step options browser h e).
Proof.
  intros A. unfold step.
  destruct e; [ | | | | apply cancel_accounted, A | | ];
    unfold Accounted in A; destruct (pc h) eqn:E;
    try (unfold Accounted; rewrite E; exact A);
    try apply catchError_accounted.
  - exact A.
  - unfold extractFrames. destruct (canvasContext browser); cbn [negb];
      [apply sampleFrom_accounted, A | apply catchError_accounted].
  - unfold captureFrame. apply sampleFrom_accounted, A.
  - destruct A as [Hi Hs]. unfold Accounted, onProgress.
    cbn [pc setProgress]. rewrite E. split; [exact Hi | reflexivity].
  - exact I.
Qed.

(** What holds of C10 on every run: a rejected conversion shows the
    reset progress state of the `catch` block, unless it was cancelled
    while the encoder rendered. *)
Lemma failures_accounted h0 (evs : list Event) msg :
  pc (run options browser (convert h0) evs) = Settled (Rejected msg) ->
  (progressState (run options browser (convert h0) evs) = errorProgress msg
   /\ isConverting (run options browser (convert h0) evs) = false)
  \/ (msg = "Conversion cancelled"%string
      /\ stage (progressState (run options browser (convert h0) evs))
         = encoding
      /\ isConverting (run options browser (convert h0) evs) = true).
Proof.
  assert (A : forall evs h, Accounted h ->
                            Accounted (run options browser h evs)).
  { clear evs. intros evs. induction evs as [|e evs IH]; intros h Ah;
      [exact Ah | rewrite run_cons; apply IH, step_accounted, Ah]. }
  intros E. specialize (A evs (convert h0) eq_refl).
  unfold Accounted in A. rewrite E in A. exact A.
Qed.

End Runs.

(** ** The statements on a concrete conversion *)

Lemma stages_ordered_witness :
  exists written,
    history (run demoOptions demoBrowser (convert useWebmToGif)
               (demoLoad ++ map seeked demoRasters ++ [gifFinished [71]]))
    = written ++ history useWebmToGif /\
    Sorted follows (idle :: stagesWritten written).
Proof.
  apply (stages_ordered demoOptions demoBrowser useWebmToGif
           (demoLoad ++ map seeked demoRasters ++ [gifFinished [71]])).
  reflexivity.
Defined.

Lemma frames_submitted_witness :
  exists gif,
    gifRef (run demoOptions demoBrowser (convert useWebmToGif)
              (demoLoad ++ map seeked demoRasters)) = Some gif /\
    map fst (gifFrames gif)
    = map (frameOf demoOptions demoBrowser) demoRasters /\
    Forall (fun queued =>
              delay (snd queued) = JS.Math_round (1000 / fps demoOptions)%Q /\
              dispose (snd queued) = 2)
      (gifFrames gif).
Proof.
  apply (frames_submitted demoOptions demoBrowser useWebmToGif
           (demoLoad ++ map seeked demoRasters)
           (map (frameOf demoOptions demoBrowser) demoRasters));
    reflexivity.
Defined.

Lemma cancel_fails_conversion_witness :
  pc (run demoOptions demoBrowser (convert useWebmToGif)
        (demoLoad ++ cancelCalled :: [gifProgress 1; seeked [1; 2; 3; 4]]))
  = Settled (Rejected "Conversion cancelled")
  /\ pc (run demoOptions demoBrowser (convert useWebmToGif)
           ((demoLoad ++ map seeked demoRasters)
              ++ cancelCalled :: [gifFinished [71]]))
     = Settled (Rejected "Conversion cancelled").
Proof.
  split.
  - destruct (cancel_fails_conversion demoOptions demoBrowser useWebmToGif
                demoLoad [gifProgress 1; seeked [1; 2; 3; 4]] eq_refl)
      as [_ H].
    destruct (H 0%nat [] eq_refl) as [Hfail _]. apply Hfail. reflexivity.
  - destruct (cancel_fails_conversion demoOptions demoBrowser useWebmToGif
                (demoLoad ++ map seeked demoRasters) [gifFinished [71]]
                eq_refl)
      as [H _].
    apply (H (map (frameOf demoOptions demoBrowser) demoRasters)).
    reflexivity.
Defined.


Lemma encoder_quality_witness :
  (encoderQuality 10 == 31 - 10)%Q /\ (encoderQuality 20 < encoderQuality 10)%Q.
Proof.
  destruct (encoder_quality demoOptions demoBrowser [] 1 1 useWebmToGif 20)
    as (_ & _ & Heq & Hlt).
  split; [apply Heq | apply Hlt]; cbn; lra.
Defined.

(** C10, at a cancel that arrives while the encoder renders: the promise
    is rejected with `Conversion cancelled`, but the `catch` block is not
    run; the progress state still shows stage `encoding`, progress 50 and
    two frames, and `isConverting` is still true.  The same call while a
    seek is pending goes through the `catch` block and resets them. *)
Lemma cancel_while_encoding_skips_catch :
  (let s := run demoOptions demoBrowser (convert useWebmToGif)
              (demoLoad ++ map seeked demoRasters ++ [cancelCalled]) in
   pc s = Settled (Rejected "Conversion cancelled") /\
   stage (progressState s) = encoding /\
   progress (progressState s) = 50%Q /\
   framesExtracted (progressState s) = 2 /\
   totalFrames (progressState s) = 2 /\
   isConverting s = true)
  /\ (let s := run demoOptions demoBrowser (convert useWebmToGif)
                 (demoLoad ++ [seeked [10; 20; 30; 200]; cancelCalled;
                               seeked [1; 2; 3; 4]]) in
      pc s = Settled (Rejected "Conversion cancelled") /\
      stage (progressState s) = error /\
      progress (progressState s) = 0%Q /\
      framesExtracted (progressState s) = 0 /\
      totalFrames (progressState s) = 0 /\
      isConverting s = false).
Proof. vm_compute. repeat split. Qed.

(** * Further properties *)

(** ** Whole frames through the keying loop *)

Lemma keyChunks_length t : forall (n : nat) (d : list Z),
  (length d <= n)%nat -> length (keyChunks t d) = length d.
Proof.
  induction n as [|n IH]; intros d Hn.
  - destruct d; [reflexivity | simpl in Hn; lia].
  - destruct d as [|r [|g [|b [|a rest]]]]; try reflexivity.
    cbn [keyChunks]. rewrite length_app, IH by (simpl in Hn; lia).
    destruct (JS.lt _ _); reflexivity.
Qed.

(** X1: the keying loop never changes the size of the array. *)
Theorem alphaKey_length t (d : list Z) :
  length (alphaKey t d) = length d.
Proof. rewrite alphaKey_chunks. apply (keyChunks_length t (length d)). lia. Qed.

Lemma pixelAt_Some (d : list Z) k :
  is_Some (pixelAt d k) <-> (4 * k + 3 < length d)%nat.
Proof.
  unfold pixelAt. split.
  - intros [p Hp].
    destruct (d !! (4 * k)%nat); [|discriminate].
    destruct (d !! (4 * k + 1)%nat); [|discriminate].
    destruct (d !! (4 * k + 2)%nat); [|discriminate].
    destruct (d !! (4 * k + 3)%nat) eqn:E; [|discriminate].
    apply lookup_lt_Some in E. exact E.
  - intros Hk.
    destruct (lookup_lt_is_Some_2 d (4 * k)) as [r ->]; [lia|].
    destruct (lookup_lt_is_Some_2 d (4 * k + 1)) as [g ->]; [lia|].
    destruct (lookup_lt_is_Some_2 d (4 * k + 2)) as [b ->]; [lia|].
    destruct (lookup_lt_is_Some_2 d (4 * k + 3)) as [a ->]; [lia|].
    eexists. reflexivity.
Qed.

Lemma pixelAt_before_keying t (d : list Z) k p' :
  pixelAt (alphaKey t d) k = Some p' ->
  exists p, pixelAt d k = Some p /\ p' = keyed t p.
Proof.
  intros Hp'.
  assert (Hs : is_Some (pixelAt d k)).
  { apply pixelAt_Some. rewrite <- (alphaKey_length t).
    apply pixelAt_Some. eexists. exact Hp'. }
  destruct Hs as [p Hp]. exists p. split; [exact Hp|].
  rewrite (alphaKey_pixelAt t d k p Hp) in Hp'. congruence.
Qed.

(** X2: after the keying loop no pixel is left with an alpha below the
    threshold, except as the opaque key pixel. *)
Theorem keyed_pixels_opaque_or_kept t (d : list Z) k p' :
  pixelAt (alphaKey t d) k = Some p' ->
  (t <= inject_Z (alphaOf p'))%Q \/ p' = opaqueKey.
Proof.
  intros Hp'. destruct (pixelAt_before_keying t d k p' Hp') as (p & _ & ->).
  unfold keyed. destruct (JS.lt (inject_Z (alphaOf p)) t) eqn:E.
  - right. reflexivity.
  - left. apply JS_lt_false, E.
Qed.

(** X3: a pixel leaves the keying loop with the key colour exactly when
    its alpha was below the threshold or it already had the key colour:
    an opaque pixel of that colour cannot be told from a keyed one. *)
Theorem key_colour_after_keying t (d : list Z) k p :
  pixelAt d k = Some p ->
  exists p',
    pixelAt (alphaKey t d) k = Some p' /\
    (rgbOf p' = ColorKey <->
     (inject_Z (alphaOf p) < t)%Q \/ rgbOf p = ColorKey).
Proof.
  intros Hp. exists (keyed t p). split; [apply alphaKey_pixelAt, Hp|].
  unfold keyed. destruct (JS.lt (inject_Z (alphaOf p)) t) eqn:E.
  - apply JS_lt_spec in E. split; [intros _; left; exact E | reflexivity].
  - apply JS_lt_false in E. split; [intros H; right; exact H|].
    intros [H|H]; [lra | exact H].
Qed.

Lemma keyChunks_untouched t : forall (n : nat) (d : list Z),
  (length d <= n)%nat ->
  (forall k p, pixelAt d k = Some p -> (t <= inject_Z (alphaOf p))%Q) ->
  keyChunks t d = d.
Proof.
  induction n as [|n IH]; intros d Hn Hall.
  - destruct d; [reflexivity | simpl in Hn; lia].
  - destruct d as [|r [|g [|b [|a rest]]]]; try reflexivity.
    cbn [keyChunks].
    pose proof (Hall 0%nat _ (pixelAt_here r g b a rest)) as H0.
    apply JS_lt_false in H0. cbn [alphaOf] in H0. rewrite H0.
    rewrite IH; [reflexivity | simpl in Hn; lia |].
    intros k p Hp. apply (Hall (S k)). rewrite pixelAt_next. exact Hp.
Qed.

(** X4: a frame with no pixel below the threshold passes through the
    keying loop unchanged. *)
Theorem alphaKey_untouched t (d : list Z) :
  (forall k p, pixelAt d k = Some p -> (t <= inject_Z (alphaOf p))%Q) ->
  alphaKey t d = d.
Proof.
  intros Hall. rewrite alphaKey_chunks.
  apply (keyChunks_untouched t (length d)); [lia | exact Hall].
Qed.

Lemma alphaKey_untouched_witness :
  alphaKey 128 [10; 20; 30; 128; 1; 2; 3; 255]
  = [10; 20; 30; 128; 1; 2; 3; 255].
Proof.
  apply alphaKey_untouched. intros [|[|k]] p Hp.
  - injection Hp as <-. unfold Qle, Qlt. cbn. lia.
  - injection Hp as <-. unfold Qle, Qlt. cbn. lia.
  - assert (Hs : is_Some (pixelAt _ (S (S k)))) by (eexists; exact Hp).
    apply pixelAt_Some in Hs. cbn [length] in Hs. lia.
Defined.

Lemma keyChunks_all_keyed t : forall (n : nat) (d : list Z),
  length d = (4 * n)%nat ->
  (forall k p, pixelAt d k = Some p -> (inject_Z (alphaOf p) < t)%Q) ->
  keyChunks t d = keyFrame n.
Proof.
  induction n as [|n IH]; intros d Hn Hall.
  - destruct d; [reflexivity | discriminate].
  - destruct d as [|r [|g [|b [|a rest]]]]; try (cbn in Hn; lia).
    cbn [keyChunks].
    pose proof (Hall 0%nat _ (pixelAt_here r g b a rest)) as H0.
    apply JS_lt_spec in H0. cbn [alphaOf] in H0. rewrite H0.
    unfold keyFrame. cbn [replicate concat]. fold (keyFrame n).
    rewrite IH; [reflexivity | cbn in Hn; lia |].
    intros k p Hp. apply (Hall (S k)). rewrite pixelAt_next. exact Hp.
Qed.

(** X5: a frame of whole pixels that all lie below the threshold comes
    out as the key colour everywhere, fully opaque. *)
Theorem alphaKey_all_keyed t (d : list Z) (n : nat) :
  length d = (4 * n)%nat ->
  (forall k p, pixelAt d k = Some p -> (inject_Z (alphaOf p) < t)%Q) ->
  alphaKey t d = keyFrame n.
Proof.
  intros Hn Hall. rewrite alphaKey_chunks.
  apply keyChunks_all_keyed; assumption.
Qed.

Lemma alphaKey_all_keyed_witness :
  alphaKey 128 [9; 9; 9; 0; 7; 7; 7; 127] = keyFrame 2.
Proof.
  apply alphaKey_all_keyed; [reflexivity|]. intros [|[|k]] p Hp.
  - injection Hp as <-. unfold Qle, Qlt. cbn. lia.
  - injection Hp as <-. unfold Qle, Qlt. cbn. lia.
  - assert (Hs : is_Some (pixelAt _ (S (S k)))) by (eexists; exact Hp).
    apply pixelAt_Some in Hs. cbn [length] in Hs. lia.
Defined.

Lemma JS_lt_max a t t' :
  JS.lt a (JS.Math_max t t') = JS.lt a t || JS.lt a t'.
Proof.
  unfold JS.Math_max.
  destruct (JS.lt a (Qmax t t')) eqn:E, (JS.lt a t) eqn:E1,
    (JS.lt a t') eqn:E2; try reflexivity; exfalso;
    rewrite ?JS_lt_spec, ?JS_lt_false in *.
  - apply Q.max_lt_iff in E. destruct E; lra.
  - assert (a < Qmax t t')%Q by (apply Q.max_lt_iff; left; lra). lra.
  - assert (a < Qmax t t')%Q by (apply Q.max_lt_iff; left; lra). lra.
  - assert (a < Qmax t t')%Q by (apply Q.max_lt_iff; right; lra). lra.
Qed.

Lemma keyChunks_twice t t' : forall (n : nat) (d : list Z),
  (length d <= n)%nat ->
  keyChunks t' (keyChunks t d) = keyChunks (JS.Math_max t t') d.
Proof.
  induction n as [|n IH]; intros d Hn.
  - destruct d; [reflexivity | simpl in Hn; lia].
  - destruct d as [|r [|g [|b [|a rest]]]]; try reflexivity.
    cbn [keyChunks]. rewrite JS_lt_max.
    destruct (JS.lt (inject_Z a) t) eqn:Ea; simpl app; cbn [keyChunks];
      rewrite IH by (simpl in Hn; lia).
    + destruct (JS.lt (inject_Z 255) t'); reflexivity.
    + cbn [orb]. reflexivity.
Qed.

(** X6: keying a frame with one threshold and then with another equals
    keying it once with the larger of the two; in particular the order of
    the two passes does not matter. *)
Theorem alphaKey_twice t t' (d : list Z) :
  alphaKey t' (alphaKey t d) = alphaKey (JS.Math_max t t') d.
Proof.
  rewrite !alphaKey_chunks. apply (keyChunks_twice t t' (length d)). lia.
Qed.

(** ** The shape of a run *)

Section MoreRuns.

Variable options : ConversionOptions.
Variable browser : Browser.

Lemma encodeFrames_cases frames h :
  (cancelledRef h = true /\
   encodeFrames options browser frames
     (targetWidth options browser) (targetHeight options browser) h
   = catchError "Conversion cancelled" h)
  \/ (cancelledRef h = false /\ frameCanvasContext browser = false /\
      encodeFrames options browser frames
        (targetWidth options browser) (targetHeight options browser) h
      = catchError "Failed to get frame canvas context"
          (setGifRef (Some (newEncoder options browser))
             (setProgress (encodingProgress frames) h)))
  \/ (cancelledRef h = false /\ frameCanvasContext browser = true /\
      encodeFrames options browser frames
        (targetWidth options browser) (targetHeight options browser) h
      = suspendAt (AwaitRender frames)
          (setGifRef (Some (startedEncoder options browser frames))
             (setProgress (encodingProgress frames) h))).
Proof.
  unfold encodeFrames. destruct (cancelledRef h); [left; split; reflexivity|].
  right. destruct (frameCanvasContext browser); cbn [negb].
  - right. repeat split. rewrite addFrames_all. reflexivity.
  - left. repeat split.
Qed.

Lemma sampleFrom_cases i frames h :
  (Z.of_nat i < totalFramesOf options browser /\ cancelledRef h = false /\
   sampleFrom options browser i frames h
   = suspendAt (AwaitSeeked i frames)
       (setCurrentTime (sampleTime options i) h))
  \/ (Z.of_nat i < totalFramesOf options browser /\ cancelledRef h = true /\
      sampleFrom options browser i frames h
      = catchError "Conversion cancelled" h)
  \/ (totalFramesOf options browser <= Z.of_nat i /\
      sampleFrom options browser i frames h
      = encodeFrames options browser frames
          (targetWidth options browser) (targetHeight options browser) h).
Proof.
  unfold sampleFrom.
  destruct (Z.ltb_spec (Z.of_nat i) (totalFramesOf options browser)).
  - destruct (cancelledRef h); [right; left | left]; repeat split; assumption.
  - right. right. split; [assumption | reflexivity].
Qed.

Lemma history_cancel h : history (cancel h) = history h.
Proof.
  unfold cancel. cbn [gifRef setCancelledRef].
  destruct (gifRef h); [| reflexivity].
  cbn [pc setGifRef setCancelledRef]. destruct (pc h); reflexivity.
Qed.

Lemma progressState_cancel h : progressState (cancel h) = progressState h.
Proof.
  unfold cancel. cbn [gifRef setCancelledRef].
  destruct (gifRef h); [| reflexivity].
  cbn [pc setGifRef setCancelledRef]. destruct (pc h); reflexivity.
Qed.

Lemma isConverting_cancel h : isConverting (cancel h) = isConverting h.
Proof.
  unfold cancel. cbn [gifRef setCancelledRef].
  destruct (gifRef h); [| reflexivity].
  cbn [pc setGifRef setCancelledRef]. destruct (pc h); reflexivity.
Qed.

Lemma seq_snoc_map (f : nat -> Q) (k : nat) :
  map f (seq 0 k) ++ [f k] = map f (seq 0 (S k)).
Proof. rewrite seq_S, map_app. reflexivity. Qed.

Lemma catchError_inv h0 msg h (k : nat) :
  seeks (history h)
  = seeks (history h0) ++ map (sampleTime options) (seq 0 k) ->
  Z.of_nat k <= Z.max 0 (totalFramesOf options browser) ->
  RunInv options browser h0 (catchError msg h).
Proof.
  intros Hs Hk. exists k. split; [| split; [exact Hk | exact I]].
  unfold catchError.
  cbn [history suspendAt setIsConverting setProgress].
  rewrite seeks_progress. exact Hs.
Qed.

Lemma encodeFrames_inv h0 frames h :
  seeks (history h)
  = seeks (history h0)
      ++ map (sampleTime options) (seq 0 (length frames)) ->
  Z.of_nat (length frames) = Z.max 0 (totalFramesOf options browser) ->
  Forall (Extracted options browser) frames ->
  RunInv options browser h0
    (encodeFrames options browser frames
       (targetWidth options browser) (targetHeight options browser) h).
Proof.
  intros Hs Hn Hf.
  destruct (encodeFrames_cases frames h)
    as [[Hc ->]|[(Hc & Hx & ->)|(Hc & Hx & ->)]].
  - apply (catchError_inv h0 _ h (length frames)); [exact Hs | lia].
  - apply (catchError_inv h0 _ _ (length frames)); [| lia].
    cbn [history setGifRef setProgress]. rewrite seeks_progress. exact Hs.
  - exists (length frames).
    cbn [history pc cancelledRef gifRef suspendAt setGifRef setProgress].
    rewrite seeks_progress. repeat split; try assumption; lia.
Qed.

Lemma sampleFrom_inv h0 i frames h :
  seeks (history h)
  = seeks (history h0) ++ map (sampleTime options) (seq 0 i) ->
  Z.of_nat i <= Z.max 0 (totalFramesOf options browser) ->
  length frames = i ->
  Forall (Extracted options browser) frames ->
  RunInv options browser h0 (sampleFrom options browser i frames h).
Proof.
  intros Hs Hi Hl Hf.
  destruct (sampleFrom_cases i frames h)
    as [(Hlt & Hc & ->)|[(Hlt & Hc & ->)|(Hge & ->)]].
  - exists (S i).
    cbn [history pc suspendAt setCurrentTime].
    rewrite seeks_time, Hs, <- app_assoc, seq_snoc_map.
    repeat split; try assumption; lia.
  - apply (catchError_inv h0 _ h i); assumption.
  - subst i. apply encodeFrames_inv; [exact Hs | lia | exact Hf].
Qed.

Lemma step_inv h0 h e :
  RunInv options browser h0 h ->
  RunInv options browser h0 (step options browser h e).
Proof.
  intros (k & Hs & Hk & Hp). unfold step.
  destruct e.
  5: { (* cancel() *)
       assert (Hq : forall frames,
                  pc h = AwaitRender frames ->
                  pc (cancel h)
                  = Settled (Rejected "Conversion cancelled")).
       { intros frames E. rewrite E in Hp. destruct Hp as (_ & _ & _ & _ & Hg).
         unfold cancel. cbn [gifRef setCancelledRef]. rewrite Hg.
         cbn [pc setGifRef setCancelledRef]. rewrite E. reflexivity. }
       exists k. rewrite history_cancel. split; [exact Hs|].
       split; [exact Hk|].
       destruct (pc h) eqn:E;
         try (rewrite (cancel_pc_other h), E;
              [exact Hp | intros fr; rewrite E; discriminate]).
       rewrite (Hq _ eq_refl). exact I. }
  all: destruct (pc h) eqn:E;
    try (exists k; rewrite E; split; [exact Hs | split; [exact Hk | exact Hp]]).
  - (* loadedmetadata *)
    exists k. cbn [history pc suspendAt]. repeat split; assumption.
  - (* canplaythrough *)
    assert (k = 0%nat) as ->.
    { rewrite Hp, seeks_progress in Hs.
      rewrite <- (app_nil_r (seeks (history h0))) in Hs at 1.
      apply app_inv_head in Hs. destruct k; [reflexivity | discriminate]. }
    unfold extractFrames. destruct (canvasContext browser); cbn [negb].
    + apply sampleFrom_inv; [exact Hs | exact Hk | reflexivity | constructor].
    + apply (catchError_inv h0 _ h 0); assumption.
  - apply (catchError_inv h0 _ h k); assumption.
  - apply (catchError_inv h0 _ h k); assumption.
  - (* seeked *)
    destruct Hp as (-> & Hl & Hf). unfold captureFrame.
    apply sampleFrom_inv.
    + cbn [history setProgress]. rewrite seeks_progress. exact Hs.
    + exact Hk.
    + rewrite length_app, Hl. cbn. lia.
    + apply Forall_app. split; [exact Hf|].
      constructor; [| constructor]. eexists. reflexivity.
  - (* progress *)
    exists k. unfold onProgress.
    cbn [history pc cancelledRef gifRef setProgress].
    rewrite seeks_progress, E. repeat split; try assumption; apply Hp.
  - (* finished *)
    exists k. unfold onFinished.
    cbn [history pc suspendAt setGifRef setIsConverting setProgress].
    rewrite seeks_progress. repeat split; assumption.
Qed.

Lemma convert_inv h0 : RunInv options browser h0 (convert h0).
Proof.
  exists 0%nat. cbn [history pc convert suspendAt setProgress
                       setIsConverting setCancelledRef].
  rewrite seeks_progress, app_nil_r. repeat split. cbn. lia.
Qed.

Lemma run_inv h0 (evs : list Event) : forall h,
  RunInv options browser h0 h ->
  RunInv options browser h0 (run options browser h evs).
Proof.
  induction evs as [|e evs IH]; intros h Inv; [exact Inv|].
  rewrite run_cons. apply IH, step_inv, Inv.
Qed.


(** ** What a run reaches *)



(** X9: while the encoder renders, `gifRef` holds an encoder that is
    running, was given the target size, registers as transparent the very
    colour the keying loop writes, and every queued frame has the
    encoder's size and is stable under the keying loop. *)
Theorem encoder_configured h0 (evs : list Event) frames :
  atRest h0 = true ->
  pc (run options browser (convert h0) evs) = AwaitRender frames ->
  exists gif,
    gifRef (run options browser (convert h0) evs) = Some gif /\
    running gif = true /\
    workers gif <> 0 /\
    transparent gif = keyR * 65536 + keyG * 256 + keyB /\
    Forall (fun frame =>
              imageWidth frame = gifWidth gif /\
              imageHeight frame = gifHeight gif /\
              alphaKey (transparentThreshold options) (data frame)
              = data frame)
      frames.
Proof.
  intros _ E.
  destruct (run_inv h0 evs _ (convert_inv h0)) as (k & _ & _ & Hp).
  rewrite E in Hp. destruct Hp as (_ & _ & Hf & _ & Hg).
  eexists. split; [exact Hg|]. repeat split.
  - cbn [workers startedEncoder]. unfold orZ.
    destruct (Z.eqb_spec (hardwareConcurrency browser) 0); [discriminate|].
    assumption.
  - cbn [gifWidth gifHeight startedEncoder].
    eapply Forall_impl; [exact Hf|]. intros frame [raster ->].
    repeat split. apply alphaKey_idempotent.
Qed.





(** ** Settled conversions *)

Lemma settled_step_final h e r :
  pc h = Settled r ->
  pc (step options browser h e) = Settled r
  /\ progressState (step options browser h e) = progressState h
  /\ isConverting (step options browser h e) = isConverting h
  /\ history (step options browser h e) = history h
  /\ (gifRef h = None -> gifRef (step options browser h e) = None).
Proof.
  intros E. split; [apply settled_step, E|].
  unfold step. destruct e; rewrite ?E; try (repeat split; auto; fail).
  rewrite progressState_cancel, isConverting_cancel, history_cancel.
  repeat split. intros Hg. unfold cancel. cbn [gifRef setCancelledRef].
  rewrite Hg. exact Hg.
Qed.

Lemma settled_run_final (evs : list Event) : forall h r,
  pc h = Settled r ->
  pc (run options browser h evs) = Settled r
  /\ progressState (run options browser h evs) = progressState h
  /\ isConverting (run options browser h evs) = isConverting h
  /\ history (run options browser h evs) = history h
  /\ (gifRef h = None -> gifRef (run options browser h evs) = None).
Proof.
  induction evs as [|e evs IH]; intros h r E; [repeat split; auto|].
  rewrite run_cons.
  destruct (settled_step_final h e r E) as (E1 & P1 & C1 & H1 & G1).
  destruct (IH _ r E1) as (E2 & P2 & C2 & H2 & G2).
  rewrite P2, C2, H2. repeat split; auto.
Qed.

(** X11: once the promise of `convert` is settled, later calls of
    `cancel()` and later events of the video change neither the outcome
    nor the progress state, `isConverting` or what was written. *)
Theorem settled_is_final h0 (pre post : list Event) r :
  atRest h0 = true ->
  existsb isEncoderEvent post = false ->
  pc (run options browser (convert h0) pre) = Settled r ->
  pc (run options browser (convert h0) (pre ++ post)) = Settled r
  /\ progressState (run options browser (convert h0) (pre ++ post))
     = progressState (run options browser (convert h0) pre)
  /\ isConverting (run options browser (convert h0) (pre ++ post))
     = isConverting (run options browser (convert h0) pre)
  /\ history (run options browser (convert h0) (pre ++ post))
     = history (run options browser (convert h0) pre).
Proof.
  intros _ _ E. rewrite run_app.
  destruct (settled_run_final post _ r E) as (H1 & H2 & H3 & H4 & _).
  repeat split; assumption.
Qed.

(** X12: a video error while `convert` waits for the metadata or for
    playback readiness rejects it with `Failed to load video`; the
    progress state is the reset error state, `isConverting` is false, and
    nothing was written but the loading state and the error: no seek was
    made. *)
Theorem video_error_while_loading h0 (pre post : list Event) :
  atRest h0 = true ->
  pc (run options browser (convert h0) pre) = AwaitMetadata
  \/ pc (run options browser (convert h0) pre) = AwaitCanPlay ->
  pc (run options browser (convert h0) (pre ++ videoError :: post))
  = Settled (Rejected "Failed to load video")
  /\ progressState (run options browser (convert h0)
                      (pre ++ videoError :: post))
     = errorProgress "Failed to load video"
  /\ isConverting (run options browser (convert h0)
                     (pre ++ videoError :: post)) = false
  /\ history (run options browser (convert h0) (pre ++ videoError :: post))
     = SetProgress (errorProgress "Failed to load video")
         :: SetProgress loadingProgress :: history h0.
Proof.
  intros _ E. rewrite run_app, run_cons.
  set (s := run options browser (convert h0) pre) in *.
  destruct (run_inv h0 pre _ (convert_inv h0)) as (k & _ & _ & Hp).
  fold s in Hp.
  assert (Hh : history s = SetProgress loadingProgress :: history h0)
    by (destruct E as [E|E]; rewrite E in Hp; exact Hp).
  assert (Hstep : step options browser s videoError
                  = catchError "Failed to load video" s)
    by (unfold step; destruct E as [E|E]; rewrite E; reflexivity).
  rewrite Hstep.
  destruct (settled_run_final post
              (catchError "Failed to load video" s) _ eq_refl)
    as (H1 & H2 & H3 & H4 & _).
  rewrite H1, H2, H3, H4. repeat split.
  cbn [history catchError suspendAt setIsConverting setProgress].
  rewrite Hh. reflexivity.
Qed.

(** X13: when the sampling canvas gives no 2D context, the conversion is
    rejected with `Failed to get canvas context` as soon as the video can
    play: no seek is made and no frame extracted. *)
Theorem no_canvas_context h0 (pre post : list Event) :
  atRest h0 = true ->
  canvasContext browser = false ->
  pc (run options browser (convert h0) pre) = AwaitCanPlay ->
  pc (run options browser (convert h0) (pre ++ canplaythrough :: post))
  = Settled (Rejected "Failed to get canvas context")
  /\ progressState (run options browser (convert h0)
                      (pre ++ canplaythrough :: post))
     = errorProgress "Failed to get canvas context"
  /\ isConverting (run options browser (convert h0)
                     (pre ++ canplaythrough :: post)) = false
  /\ history (run options browser (convert h0)
                (pre ++ canplaythrough :: post))
     = SetProgress (errorProgress "Failed to get canvas context")
         :: SetProgress loadingProgress :: history h0.
Proof.
  intros _ Hc E. rewrite run_app, run_cons.
  set (s := run options browser (convert h0) pre) in *.
  destruct (run_inv h0 pre _ (convert_inv h0)) as (k & _ & _ & Hp).
  fold s in Hp. rewrite E in Hp.
  assert (Hstep : step options browser s canplaythrough
                  = catchError "Failed to get canvas context" s).
  { unfold step. rewrite E. unfold extractFrames. rewrite Hc. reflexivity. }
  rewrite Hstep.
  destruct (settled_run_final post
              (catchError "Failed to get canvas context" s) _ eq_refl)
    as (H1 & H2 & H3 & H4 & _).
  rewrite H1, H2, H3, H4. repeat split.
  cbn [history catchError suspendAt setIsConverting setProgress].
  rewrite Hp. reflexivity.
Qed.

(** X14: when the encoder reports `finished` while `convert` waits for
    it, the conversion resolves with that blob; the progress state is
    `complete`, 100, with both frame counts equal to the number of
    frames, `isConverting` is false and `gifRef` is cleared, and stays
    so. *)
Theorem finished_resolves h0 (pre post : list Event) frames blob :
  atRest h0 = true ->
  pc (run options browser (convert h0) pre) = AwaitRender frames ->
  pc (run options browser (convert h0) (pre ++ gifFinished blob :: post))
  = Settled (Resolved blob)
  /\ progressState (run options browser (convert h0)
                      (pre ++ gifFinished blob :: post))
     = completeProgress frames
  /\ isConverting (run options browser (convert h0)
                     (pre ++ gifFinished blob :: post)) = false
  /\ gifRef (run options browser (convert h0)
               (pre ++ gifFinished blob :: post)) = None.
Proof.
  intros _ E. rewrite run_app, run_cons.
  set (s := run options browser (convert h0) pre) in *.
  assert (Hstep : step options browser s (gifFinished blob)
                  = onFinished blob frames s)
    by (unfold step; rewrite E; reflexivity).
  rewrite Hstep.
  destruct (settled_run_final post (onFinished blob frames s) _ eq_refl)
    as (H1 & H2 & H3 & _ & H5).
  rewrite H1, H2, H3, (H5 eq_refl). repeat split.
Qed.

Ltac unsettled Hr :=
  cbn [pc catchError suspendAt setIsConverting setProgress setGifRef
         setCurrentTime setCancelledRef] in Hr;
  discriminate Hr.

Lemma step_resolves h e blob :
  (forall b, pc h <> Settled (Resolved b)) ->
  pc (step options browser h e) = Settled (Resolved blob) ->
  e = gifFinished blob /\ exists frames, pc h = AwaitRender frames.
Proof.
  intros Hn. unfold step. destruct e.
  5: { intros Hr. exfalso.
       unfold cancel in Hr. cbn [gifRef setCancelledRef] in Hr.
       destruct (gifRef h).
       - cbn [pc setGifRef setCancelledRef] in Hr.
         destruct (pc h) eqn:E;
           cbn [pc setGifRef setCancelledRef suspendAt] in Hr;
           rewrite ?E in Hr; try discriminate Hr.
         exact (Hn _ Hr).
       - exact (Hn _ Hr). }
  all: destruct (pc h) eqn:E; intros Hr;
    try (rewrite E in Hr;
         first [discriminate Hr | exfalso; exact (Hn _ Hr)]);
    try (unsettled Hr).
  - exfalso. unfold extractFrames in Hr.
    destruct (canvasContext browser); cbn [negb] in Hr.
    2: unsettled Hr.
    destruct (sampleFrom_cases 0 [] h)
      as [(_ & _ & Hs)|[(_ & _ & Hs)|(_ & Hs)]]; rewrite Hs in Hr;
      try (unsettled Hr).
    destruct (encodeFrames_cases [] h)
      as [[_ Hx]|[(_ & _ & Hx)|(_ & _ & Hx)]]; rewrite Hx in Hr;
      unsettled Hr.
  - exfalso. unfold captureFrame in Hr.
    match type of Hr with
    | pc (sampleFrom _ _ ?j ?fr ?h1) = _ =>
        destruct (sampleFrom_cases j fr h1)
          as [(_ & _ & Hs)|[(_ & _ & Hs)|(_ & Hs)]]; rewrite Hs in Hr;
          try (unsettled Hr);
        destruct (encodeFrames_cases fr h1)
          as [[_ Hx]|[(_ & _ & Hx)|(_ & _ & Hx)]]; rewrite Hx in Hr;
          unsettled Hr
    end.
  - exfalso. unfold onProgress in Hr. cbn [pc setProgress] in Hr.
    rewrite E in Hr. discriminate Hr.
  - unfold onFinished in Hr. cbn [pc suspendAt] in Hr.
    injection Hr as ->. split; [reflexivity | eexists; reflexivity].
Qed.

Lemma run_resolves (evs : list Event) : forall h blob,
  (forall b, pc h <> Settled (Resolved b)) ->
  pc (run options browser h evs) = Settled (Resolved blob) ->
  exists pre post frames,
    evs = pre ++ gifFinished blob :: post /\
    pc (run options browser h pre) = AwaitRender frames.
Proof.
  induction evs as [|e evs IH]; intros h blob Hn Hr.
  - exfalso. exact (Hn _ Hr).
  - rewrite run_cons in Hr.
    destruct (pc (step options browser h e)) as [| | | | |[b|msg]] eqn:E.
    6: { rewrite (settled_run options browser evs _ _ E) in Hr.
         injection Hr as ->.
         destruct (step_resolves h e blob Hn E) as [-> [frames Hf]].
         exists [], evs, frames. split; [reflexivity | exact Hf]. }
    all: destruct (IH _ blob ltac:(intros b; rewrite E; discriminate) Hr)
           as (pre & post & fr & -> & Hf);
      exists (e :: pre), post, fr; split; [reflexivity | exact Hf].
Qed.

Lemma step_flag h e :
  cancelledRef (step options browser h e) = cancelledRef h || isCancel e.
Proof.
  unfold step. destruct e; cbn [isCancel];
    try (rewrite orb_false_r; destruct (pc h); try reflexivity).
  - unfold extractFrames. destruct (canvasContext browser); cbn [negb];
      [| reflexivity].
    destruct (sampleFrom_cases 0 [] h)
      as [(_ & _ & ->)|[(_ & _ & ->)|(_ & ->)]]; try reflexivity.
    destruct (encodeFrames_cases [] h)
      as [[_ ->]|[(_ & _ & ->)|(_ & _ & ->)]]; reflexivity.
  - unfold captureFrame.
    match goal with
    | |- cancelledRef (sampleFrom _ _ ?j ?fr ?h1) = _ =>
        destruct (sampleFrom_cases j fr h1)
          as [(_ & _ & ->)|[(_ & _ & ->)|(_ & ->)]]; try reflexivity;
        destruct (encodeFrames_cases fr h1)
          as [[_ ->]|[(_ & _ & ->)|(_ & _ & ->)]]; reflexivity
    end.
  - rewrite cancel_sets_flag, orb_true_r. reflexivity.
Qed.

Lemma run_flag (evs : list Event) : forall h,
  cancelledRef (run options browser h evs)
  = cancelledRef h || existsb isCancel evs.
Proof.
  induction evs as [|e evs IH]; intros h.
  - cbn. rewrite orb_false_r. reflexivity.
  - rewrite run_cons, IH, step_flag. cbn [existsb].
    rewrite orb_assoc. reflexivity.
Qed.

(** X15: a conversion resolves only with a blob the encoder delivered
    through `finished` while `convert` was waiting for it, and only if
    `cancel()` was not called at any time before that. *)
Theorem resolves_only_when_finished h0 (evs : list Event) blob :
  atRest h0 = true ->
  pc (run options browser (convert h0) evs) = Settled (Resolved blob) ->
  exists pre post,
    evs = pre ++ gifFinished blob :: post /\
    existsb isCancel pre = false.
Proof.
  intros _ Hr.
  destruct (run_resolves evs (convert h0) blob
              ltac:(intros b; discriminate) Hr)
    as (pre & post & frames & -> & Hf).
  exists pre, post. split; [reflexivity|].
  destruct (run_inv h0 pre _ (convert_inv h0)) as (k & _ & _ & Hp).
  rewrite Hf in Hp. destruct Hp as (_ & _ & _ & Hc & _).
  rewrite run_flag in Hc. exact Hc.
Qed.


(** ** Edge cases of the pipeline *)



(** X17: when `duration * fps` is at most one half (a video of at most
    half a frame interval, a zero length, a frame rate that is not
    positive), `Math.floor` of it is zero or negative and no seek is
    made: as soon as the video can play the encoder is started with no
    frame at all, and the progress state shows stage `encoding`,
    progress 50 and zero frames. *)
Theorem no_frames_to_sample h0 :
  atRest h0 = true ->
  canvasContext browser = true ->
  frameCanvasContext browser = true ->
  (duration browser * fps options <= 1 # 2)%Q ->
  pc (run options browser (convert h0) [loadedmetadata; canplaythrough])
  = AwaitRender []
  /\ stage (progressState (run options browser (convert h0)
                             [loadedmetadata; canplaythrough]))
     = encoding
  /\ progress (progressState (run options browser (convert h0)
                                [loadedmetadata; canplaythrough]))
     = 50%Q
  /\ framesExtracted (progressState (run options browser (convert h0)
                                       [loadedmetadata; canplaythrough]))
     = 0
  /\ totalFrames (progressState (run options browser (convert h0)
                                   [loadedmetadata; canplaythrough]))
     = 0
  /\ seeks (history (run options browser (convert h0)
                       [loadedmetadata; canplaythrough]))
     = seeks (history h0)
  /\ gifRef (run options browser (convert h0)
               [loadedmetadata; canplaythrough])
     = Some (startedEncoder options browser []).
Proof.
  intros _ Hc Hf Hx.
  assert (Hn : totalFramesOf options browser <= 0).
  { unfold totalFramesOf, JS.Math_floor.
    change 0 with (Qfloor (1 # 2)). apply Qfloor_resp_le, Hx. }
  cbn [run fold_left].
  change (step options browser (convert h0) loadedmetadata)
    with (suspendAt AwaitCanPlay (convert h0)).
  change (step options browser (suspendAt AwaitCanPlay (convert h0))
            canplaythrough)
    with (extractFrames options browser
            (suspendAt AwaitCanPlay (convert h0))).
  unfold extractFrames. rewrite Hc. cbn [negb].
  rewrite sampleFrom_done by (cbn; exact Hn).
  destruct (encodeFrames_cases [] (suspendAt AwaitCanPlay (convert h0)))
    as [[Hy _]|[(_ & Hy & _)|(_ & _ & ->)]]; [discriminate | congruence |].
  repeat split.
  cbn [history suspendAt setGifRef setProgress convert setIsConverting
         setCancelledRef].
  rewrite !seeks_progress. reflexivity.
Qed.

(** ** What the hook shows *)

Lemma run_accounted (evs : list Event) : forall h,
  Accounted h -> Accounted (run options browser h evs).
Proof.
  induction evs as [|e evs IH]; intros h A; [exact A|].
  rewrite run_cons. apply IH, step_accounted, A.
Qed.

(** X18: at every await of a run, `isConverting` is true. *)
Theorem converting_while_suspended h0 (evs : list Event) :
  atRest h0 = true ->
  suspended (run options browser (convert h0) evs) = true ->
  isConverting (run options browser (convert h0) evs) = true.
Proof.
  intros _ Hs.
  pose proof (run_accounted evs (convert h0) eq_refl) as A.
  unfold Accounted in A. unfold suspended in Hs.
  destruct (pc (run options browser (convert h0) evs));
    try discriminate Hs; try exact A. apply A.
Qed.

Lemma known_catchError msg h :
  In msg rejectionMessages -> KnownRejection (catchError msg h).
Proof. intros Hm m [= <-]. exact Hm. Qed.

Lemma known_encodeFrames frames h :
  KnownRejection
    (encodeFrames options browser frames
       (targetWidth options browser) (targetHeight options browser) h).
Proof.
  destruct (encodeFrames_cases frames h)
    as [[_ ->]|[(_ & _ & ->)|(_ & _ & ->)]].
  - apply known_catchError. cbn. tauto.
  - apply known_catchError. cbn. tauto.
  - intros m Hm. discriminate Hm.
Qed.

Lemma known_sampleFrom i frames h :
  KnownRejection (sampleFrom options browser i frames h).
Proof.
  destruct (sampleFrom_cases i frames h)
    as [(_ & _ & ->)|[(_ & _ & ->)|(_ & ->)]].
  - intros m Hm. discriminate Hm.
  - apply known_catchError. cbn. tauto.
  - apply known_encodeFrames.
Qed.

Lemma known_step h e :
  KnownRejection h -> KnownRejection (step options browser h e).
Proof.
  intros K. unfold step. destruct e.
  5: { intros m Hm. unfold cancel in Hm. cbn [gifRef setCancelledRef] in Hm.
       destruct (gifRef h); [| exact (K m Hm)].
       cbn [pc setGifRef setCancelledRef] in Hm.
       destruct (pc h) eqn:E;
         cbn [pc setGifRef setCancelledRef suspendAt] in Hm;
         rewrite ?E in Hm; try discriminate Hm.
       - injection Hm as <-. cbn. tauto.
       - apply K. rewrite E. exact Hm. }
  all: destruct (pc h) eqn:E; try exact K;
    try (apply known_catchError; cbn; tauto).
  - intros m Hm. discriminate Hm.
  - unfold extractFrames. destruct (canvasContext browser); cbn [negb];
      [apply known_sampleFrom | apply known_catchError; cbn; tauto].
  - apply known_sampleFrom.
  - intros m Hm. discriminate Hm.
Qed.

Lemma known_run (evs : list Event) : forall h,
  KnownRejection h -> KnownRejection (run options browser h evs).
Proof.
  induction evs as [|e evs IH]; intros h K; [exact K|].
  rewrite run_cons. apply IH, known_step, K.
Qed.

(** X19: on a target of positive width and height a conversion is
    rejected only with one of four messages; and whatever the target,
    with a message other than `Conversion cancelled` the progress state
    is the reset error state carrying that message and `isConverting` is
    false. *)
Theorem rejections_known h0 (evs : list Event) msg :
  atRest h0 = true ->
  pc (run options browser (convert h0) evs) = Settled (Rejected msg) ->
  (0 < targetWidth options browser -> 0 < targetHeight options browser ->
   In msg rejectionMessages)
  /\ (msg <> "Conversion cancelled"%string ->
      progressState (run options browser (convert h0) evs)
      = errorProgress msg
      /\ isConverting (run options browser (convert h0) evs) = false).
Proof.
  intros _ E. split.
  - intros _ _. apply (known_run evs (convert h0)); [| exact E].
    intros m Hm. discriminate Hm.
  - intros Hm.
    destruct (failures_accounted options browser h0 evs msg E)
      as [H|(H & _)]; [exact H | contradiction].
Qed.

(** ** More on `cancel` *)

Lemma cancelled_seeked_resets h raster i frames :
  pc h = AwaitSeeked i frames -> cancelledRef h = true ->
  pc (step options browser h (seeked raster))
  = Settled (Rejected "Conversion cancelled")
  /\ progressState (step options browser h (seeked raster))
     = errorProgress "Conversion cancelled"
  /\ isConverting (step options browser h (seeked raster)) = false.
Proof.
  intros E Hc. rewrite (step_seeked options browser _ raster i frames E).
  unfold captureFrame.
  match goal with
  | |- pc (sampleFrom _ _ ?j ?fr ?h1) = _ /\ _ =>
      assert (Hc1 : cancelledRef h1 = true) by exact Hc;
      destruct (sampleFrom_cases j fr h1)
        as [(_ & Hx & _)|[(_ & _ & ->)|(_ & ->)]];
        [congruence | repeat split |];
      destruct (encodeFrames_cases fr h1)
        as [[_ ->]|[(Hx & _)|(Hx & _)]];
        [repeat split | congruence | congruence]
  end.
Qed.

Lemma cancelled_run_resets (post : list Event) : forall h i frames,
  pc h = AwaitSeeked i frames -> cancelledRef h = true ->
  existsb isSeeked post = true ->
  pc (run options browser h post)
  = Settled (Rejected "Conversion cancelled")
  /\ progressState (run options browser h post)
     = errorProgress "Conversion cancelled"
  /\ isConverting (run options browser h post) = false.
Proof.
  induction post as [|e post IH]; intros h i frames E Hc Hp;
    [discriminate|].
  rewrite run_cons. cbn [existsb] in Hp.
  destruct (isSeeked e) eqn:He.
  - destruct e; try discriminate He.
    destruct (cancelled_seeked_resets h raster i frames E Hc)
      as (E1 & P1 & C1).
    destruct (settled_run_final post _ _ E1) as (E2 & P2 & C2 & _).
    rewrite E2, P2, C2. repeat split; assumption.
  - destruct (cancelled_waits options browser h e i frames E Hc He)
      as [E' Hc'].
    apply (IH _ i frames E' Hc' Hp).
Qed.

(** X20: a `cancel()` that arrives while a seek is pending ends, once
    that seek is answered, in the reset error state with message
    `Conversion cancelled`, and `isConverting` is false. *)
Theorem cancel_while_sampling_resets h0 (pre post : list Event) i frames :
  atRest h0 = true ->
  pc (run options browser (convert h0) pre) = AwaitSeeked i frames ->
  existsb isSeeked post = true ->
  pc (run options browser (convert h0) (pre ++ cancelCalled :: post))
  = Settled (Rejected "Conversion cancelled")
  /\ progressState (run options browser (convert h0)
                      (pre ++ cancelCalled :: post))
     = errorProgress "Conversion cancelled"
  /\ isConverting (run options browser (convert h0)
                     (pre ++ cancelCalled :: post)) = false.
Proof.
  intros _ E Hp. rewrite run_app, run_cons.
  set (s := run options browser (convert h0) pre) in *.
  change (step options browser s cancelCalled) with (cancel s).
  apply (cancelled_run_resets post (cancel s) i frames).
  - rewrite cancel_pc_other; [exact E|]. intros fr. rewrite E. discriminate.
  - apply cancel_sets_flag.
  - exact Hp.
Qed.


Ltac same_fields :=
  cbn [progressState isConverting cancelledRef pc history gifRef
         setProgress setIsConverting setCancelledRef setGifRef suspendAt
         setCurrentTime catchError] in *.

Lemma same_setProgress w h h' :
  sameButEncoder h h' -> sameButEncoder (setProgress w h) (setProgress w h').
Proof.
  intros (Hp & Hi & Hc & Hpc & Hh & Hg). unfold sameButEncoder. same_fields.
  rewrite Hh. repeat split; try assumption; apply Hg.
Qed.

Lemma same_suspendAt ph h h' :
  sameButEncoder h h' -> sameButEncoder (suspendAt ph h) (suspendAt ph h').
Proof.
  intros (Hp & Hi & Hc & Hpc & Hh & Hg). unfold sameButEncoder. same_fields.
  repeat split; try assumption; apply Hg.
Qed.

Lemma same_setCurrentTime t h h' :
  sameButEncoder h h' ->
  sameButEncoder (setCurrentTime t h) (setCurrentTime t h').
Proof.
  intros (Hp & Hi & Hc & Hpc & Hh & Hg). unfold sameButEncoder. same_fields.
  rewrite Hh. repeat split; try assumption; apply Hg.
Qed.

Lemma same_setGifRef g g' h h' :
  (g = None <-> g' = None) ->
  sameButEncoder h h' ->
  sameButEncoder (setGifRef g h) (setGifRef g' h').
Proof.
  intros Hn (Hp & Hi & Hc & Hpc & Hh & Hg). unfold sameButEncoder.
  same_fields. repeat split; try assumption; apply Hn.
Qed.

Lemma same_catchError msg h h' :
  sameButEncoder h h' ->
  sameButEncoder (catchError msg h) (catchError msg h').
Proof.
  intros (Hp & Hi & Hc & Hpc & Hh & Hg). unfold sameButEncoder. same_fields.
  rewrite Hh. repeat split; try assumption; apply Hg.
Qed.

Lemma same_encodeFrames frames h h' :
  sameButEncoder h h' ->
  sameButEncoder
    (encodeFrames options browser frames
       (targetWidth options browser) (targetHeight options browser) h)
    (encodeFrames options browser frames
       (targetWidth options browser) (targetHeight options browser) h').
Proof.
  intros S. pose proof S as (_ & _ & Hc & _).
  destruct (encodeFrames_cases frames h)
    as [[H1 ->]|[(H1 & F1 & ->)|(H1 & F1 & ->)]];
    destruct (encodeFrames_cases frames h')
      as [[H2 ->]|[(H2 & F2 & ->)|(H2 & F2 & ->)]];
    try congruence.
  - apply same_catchError, S.
  - apply same_catchError, same_setGifRef, same_setProgress, S. tauto.
  - apply same_suspendAt, same_setGifRef, same_setProgress, S.
    split; discriminate.
Qed.

Lemma same_sampleFrom i frames h h' :
  sameButEncoder h h' ->
  sameButEncoder (sampleFrom options browser i frames h)
    (sampleFrom options browser i frames h').
Proof.
  intros S. pose proof S as (_ & _ & Hc & _).
  destruct (sampleFrom_cases i frames h)
    as [(L1 & H1 & ->)|[(L1 & H1 & ->)|(L1 & ->)]];
    destruct (sampleFrom_cases i frames h')
      as [(L2 & H2 & ->)|[(L2 & H2 & ->)|(L2 & ->)]];
    try congruence; try lia.
  - apply same_suspendAt, same_setCurrentTime, S.
  - apply same_catchError, S.
  - apply same_encodeFrames, S.
Qed.

Lemma same_cancel h h' :
  sameButEncoder h h' -> sameButEncoder (cancel h) (cancel h').
Proof.
  intros (Hp & Hi & Hc & Hpc & Hh & Hg). unfold sameButEncoder, cancel.
  cbn [gifRef setCancelledRef].
  destruct (gifRef h) as [g|] eqn:G, (gifRef h') as [g'|] eqn:G';
    try (destruct Hg as [Hg1 Hg2];
         first [discriminate (Hg1 eq_refl) | discriminate (Hg2 eq_refl)]).
  - cbn [pc setGifRef setCancelledRef]. rewrite <- Hpc.
    destruct (pc h) eqn:E; same_fields;
      repeat split; try assumption; try reflexivity; try discriminate;
      try (rewrite E; exact Hpc).
  - same_fields. rewrite G, G'.
    repeat split; try assumption; try reflexivity.
Qed.

Lemma same_step h h' e :
  sameButEncoder h h' ->
  sameButEncoder (step options browser h e) (step options browser h' e).
Proof.
  intros S. pose proof S as (_ & _ & _ & Hpc & _).
  unfold step. rewrite <- Hpc.
  destruct e; [ | | | | apply same_cancel, S | | ];
    destruct (pc h); try exact S;
    try (apply same_catchError, S).
  - apply same_suspendAt, S.
  - unfold extractFrames. destruct (canvasContext browser); cbn [negb];
      [apply same_sampleFrom, S | apply same_catchError, S].
  - unfold captureFrame. apply same_sampleFrom, same_setProgress, S.
  - unfold onProgress. apply same_setProgress, S.
  - unfold onFinished. apply same_suspendAt, same_setGifRef.
    + tauto.
    + destruct S as (Hp & Hi & Hc & Hq & Hh & Hg). unfold sameButEncoder.
      same_fields. rewrite Hh. repeat split; try assumption; apply Hg.
Qed.

Lemma same_run (evs : list Event) : forall h h',
  sameButEncoder h h' ->
  sameButEncoder (run options browser h evs) (run options browser h' evs).
Proof.
  induction evs as [|e evs IH]; intros h h' S; [exact S|].
  rewrite !run_cons. apply IH, same_step, S.
Qed.

(** X22: a `cancel()` issued before `convert` is forgotten: `convert`
    clears the flag, and the conversion then runs exactly as if `cancel()`
    had not been called: same outcome, same progress state, same
    `isConverting`, same writes. *)
Theorem cancel_before_convert h0 (evs : list Event) :
  atRest h0 = true ->
  pc (run options browser (convert (cancel h0)) evs)
  = pc (run options browser (convert h0) evs)
  /\ progressState (run options browser (convert (cancel h0)) evs)
     = progressState (run options browser (convert h0) evs)
  /\ isConverting (run options browser (convert (cancel h0)) evs)
     = isConverting (run options browser (convert h0) evs)
  /\ history (run options browser (convert (cancel h0)) evs)
     = history (run options browser (convert h0) evs).
Proof.
  intros _.
  assert (S : sameButEncoder (convert (cancel h0)) (convert h0)).
  { unfold sameButEncoder, convert. same_fields.
    rewrite history_cancel. repeat split.
    - unfold cancel. cbn [gifRef setCancelledRef].
      destruct (gifRef h0); [| intros; reflexivity].
      cbn [pc setGifRef setCancelledRef].
      destruct (pc h0); same_fields; discriminate.
    - intros Hn. unfold cancel. cbn [gifRef setCancelledRef].
      rewrite Hn. exact Hn. }
  destruct (same_run evs _ _ S) as (H1 & H2 & H3 & H4 & H5 & _).
  repeat split; assumption.
Qed.


(** ** The progress scale *)

Lemma extracting_progress_range (x y : Z) :
  1 <= x <= y ->
  (0 <= inject_Z x / inject_Z y * 50 <= 50)%Q.
Proof.
  intros Hxy.
  assert (Hy : (0 < inject_Z y)%Q)
    by (change 0%Q with (inject_Z 0); rewrite <- Zlt_Qlt; lia).
  assert (Hx : (0 <= inject_Z x)%Q)
    by (change 0%Q with (inject_Z 0); rewrite <- Zle_Qle; lia).
  assert (Hle : (inject_Z x <= inject_Z y)%Q) by (rewrite <- Zle_Qle; lia).
  assert (H0 : (0 <= inject_Z x / inject_Z y)%Q)
    by (apply Qle_shift_div_l; [exact Hy | lra]).
  assert (H1 : (inject_Z x / inject_Z y <= 1)%Q)
    by (apply Qle_shift_div_r; [exact Hy | lra]).
  set (a := (inject_Z x / inject_Z y)%Q) in *. clearbody a. lra.
Qed.

Lemma inrange_quiet h0 h h' :
  history h' = history h -> InRange h0 h -> InRange h0 h'.
Proof. intros Hh (added & Ha & Hf). exists added. rewrite Hh. auto. Qed.

Lemma inrange_push h0 h h' e :
  history h' = e :: history h -> progressInRange e ->
  InRange h0 h -> InRange h0 h'.
Proof.
  intros Hh He (added & Ha & Hf). exists (e :: added).
  rewrite Hh, Ha. split; [reflexivity | constructor; assumption].
Qed.

Lemma error_in_range msg : progressInRange (SetProgress (errorProgress msg)).
Proof. cbn. repeat split; try discriminate; try lra; lia. Qed.

Lemma encoding_in_range frames :
  progressInRange (SetProgress (encodingProgress frames)).
Proof. cbn. repeat split; try discriminate; try lra; lia. Qed.

Lemma inrange_catchError h0 msg h :
  InRange h0 h -> InRange h0 (catchError msg h).
Proof.
  apply inrange_push with (e := SetProgress (errorProgress msg));
    [reflexivity | apply error_in_range].
Qed.

Lemma inrange_encodeFrames h0 frames h :
  InRange h0 h ->
  InRange h0
    (encodeFrames options browser frames
       (targetWidth options browser) (targetHeight options browser) h).
Proof.
  intros R.
  destruct (encodeFrames_cases frames h)
    as [[_ ->]|[(_ & _ & ->)|(_ & _ & ->)]].
  - apply inrange_catchError, R.
  - apply inrange_catchError.
    eapply inrange_push; [| apply (encoding_in_range frames) | exact R].
    reflexivity.
  - eapply inrange_push; [| apply (encoding_in_range frames) | exact R].
    reflexivity.
Qed.

Lemma inrange_sampleFrom h0 i frames h :
  InRange h0 h -> InRange h0 (sampleFrom options browser i frames h).
Proof.
  intros R.
  destruct (sampleFrom_cases i frames h)
    as [(_ & _ & ->)|[(_ & _ & ->)|(_ & ->)]].
  - eapply inrange_push; [| | exact R]; [reflexivity | exact I].
  - apply inrange_catchError, R.
  - apply inrange_encodeFrames, R.
Qed.

Lemma inrange_step h0 h e :
  RunInv options browser h0 h -> fractionReported e ->
  InRange h0 h -> InRange h0 (step options browser h e).
Proof.
  intros (k & _ & Hk & Hp) He R. unfold step.
  destruct e;
    [ | | | | apply (inrange_quiet h0 h); [apply history_cancel | exact R]
      | | ];
    destruct (pc h) eqn:E; try exact R; try (apply inrange_catchError, R).
  - unfold extractFrames. destruct (canvasContext browser); cbn [negb];
      [apply inrange_sampleFrom, R | apply inrange_catchError, R].
  - unfold captureFrame. apply inrange_sampleFrom.
    eapply inrange_push; [reflexivity | | exact R].
    destruct Hp as (-> & _ & _).
    assert (Hi : 1 <= Z.of_nat i + 1 <= totalFramesOf options browser)
      by lia.
    pose proof (extracting_progress_range _ _ Hi) as Hq.
    cbn [progressInRange progress stage framesExtracted totalFrames].
    repeat split; try discriminate; try lra; lia.
  - unfold onProgress. eapply inrange_push; [reflexivity | | exact R].
    cbn in He.
    cbn [progressInRange progress stage framesExtracted totalFrames].
    repeat split; try discriminate; try lra; lia.
  - unfold onFinished. eapply inrange_push; [reflexivity | | exact R].
    cbn [progressInRange progress stage framesExtracted totalFrames].
    repeat split; try discriminate; try lra; lia.
Qed.

Lemma inrange_run h0 (evs : list Event) : forall h,
  RunInv options browser h0 h -> Forall fractionReported evs ->
  InRange h0 h -> InRange h0 (run options browser h evs).
Proof.
  induction evs as [|e evs IH]; intros h Inv Hf R; [exact R|].
  rewrite run_cons. inversion Hf; subst.
  apply IH; [apply step_inv, Inv | assumption |].
  apply inrange_step; assumption.
Qed.

(** X23: as long as the encoder reports fractions between 0 and 1,
    every progress state a run writes is within the scale: progress lies
    in [0,100], at most 50 while extracting and at least 50 while
    encoding, and `framesExtracted` never exceeds `totalFrames`. *)
Theorem progress_in_range h0 (evs : list Event) :
  atRest h0 = true ->
  Forall fractionReported evs ->
  exists added,
    history (run options browser (convert h0) evs) = added ++ history h0
    /\ Forall progressInRange added.
Proof.
  intros _ Hf.
  apply (inrange_run h0 evs (convert h0) (convert_inv h0) Hf).
  exists [SetProgress loadingProgress]. split; [reflexivity|].
  constructor; [| constructor].
  cbn. repeat split; try discriminate; try lra; lia.
Qed.

End MoreRuns.

(** X21: `cancel()` is idempotent: a second call right after the first
    changes nothing. *)
Theorem cancel_idempotent h : cancel (cancel h) = cancel h.
Proof.
  unfold cancel. cbn [gifRef setCancelledRef].
  destruct (gifRef h) as [gif|] eqn:G.
  - cbn [pc setGifRef setCancelledRef].
    destruct (pc h) eqn:E;
      cbn [gifRef pc cancelledRef setGifRef setCancelledRef suspendAt
             progressState isConverting history];
      rewrite ?E; reflexivity.
  - cbn [gifRef pc cancelledRef setGifRef setCancelledRef suspendAt].
    rewrite G. reflexivity.
Qed.

(** ** Frame delay *)

(** X24: for a frame rate of [1,30] the delay handed to the encoder,
    `Math.round(1000 / fps)`, lies between 33 and 1000 milliseconds. *)
Theorem frame_delay_bounds (options : ConversionOptions) :
  (1 <= fps options <= 30)%Q ->
  33 <= JS.Math_round (1000 / fps options)%Q <= 1000.
Proof.
  intros [H1 H30]. unfold JS.Math_round.
  assert (Hf : (0 < fps options)%Q) by lra.
  assert (Hlo : (100 # 3 <= 1000 / fps options)%Q)
    by (apply Qle_shift_div_l; [exact Hf | lra]).
  assert (Hhi : (1000 / fps options <= 1000)%Q)
    by (apply Qle_shift_div_r; [exact Hf | lra]).
  set (x := (1000 / fps options)%Q) in *. clearbody x. split.
  - change 33 with (Qfloor (inject_Z 33)). apply Qfloor_resp_le.
    change (inject_Z 33) with 33%Q. lra.
  - apply Z.lt_succ_r. change (Z.succ 1000) with 1001.
    rewrite Zlt_Qlt. eapply Qle_lt_trans; [apply Qfloor_le|].
    change (inject_Z 1001) with 1001%Q. lra.
Qed.

Lemma frame_delay_bounds_witness :
  33 <= JS.Math_round (1000 / fps demoOptions)%Q <= 1000.
Proof.
  apply frame_delay_bounds. split; unfold Qle; cbn; lia.
Defined.

(** ** The `App` helpers *)

Lemma string_app_assoc (a b c : string) : (a +:+ b) +:+ c = a +:+ (b +:+ c).
Proof.
  induction a as [|x a IH]; [reflexivity|].
  change (String x ((a +:+ b) +:+ c) = String x (a +:+ (b +:+ c))).
  rewrite IH. reflexivity.
Qed.

Lemma string_app_empty (a : string) : a +:+ EmptyString = a.
Proof.
  induction a as [|x a IH]; [reflexivity|].
  change (String x (a +:+ EmptyString) = String x a).
  rewrite IH. reflexivity.
Qed.

Lemma string_length_app (a b : string) :
  String.length (a +:+ b) = (String.length a + String.length b)%nat.
Proof.
  induction a as [|x a IH]; [reflexivity|].
  change (S (String.length (a +:+ b))
          = S (String.length a + String.length b)).
  rewrite IH. reflexivity.
Qed.

Lemma Qfloor_between (x : Q) (z : Z) :
  (inject_Z z <= x)%Q -> (x < inject_Z (z + 1))%Q -> Qfloor x = z.
Proof.
  intros Hlo Hhi.
  assert (H1 : z <= Qfloor x).
  { rewrite <- (Qfloor_Z z). apply Qfloor_resp_le, Hlo. }
  assert (H2 : Qfloor x < z + 1).
  { rewrite Zlt_Qlt. eapply Qle_lt_trans; [apply Qfloor_le | exact Hhi]. }
  lia.
Qed.

Lemma toFixed1_whole (k : Z) (x : Q) :
  (x == inject_Z k)%Q -> toFixed1 x = pretty k +:+ ".0".
Proof.
  intros Hx. unfold toFixed1.
  assert (Hn : Qfloor (x * 10 + (1 # 2)) = 10 * k).
  { apply Qfloor_between; rewrite Hx, ?inject_Z_plus, inject_Z_mult;
      change (inject_Z 10) with 10%Q; change (inject_Z 1) with 1%Q;
      set (q := inject_Z k); clearbody q; lra. }
  rewrite Hn, (Z.mul_comm 10 k), Z.div_mul, Z_mod_mult by lia.
  reflexivity.
Qed.

(** X25: `formatFileSize` shows a size below 1024 bytes as its byte
    count, and a whole number of KiB (below 1024) or of MiB with one
    decimal `.0`. *)
Theorem formatFileSize_whole (k : Z) :
  (0 <= k < 1024 -> formatFileSize k = pretty k +:+ " B")
  /\ (1 <= k < 1024 -> formatFileSize (1024 * k) = pretty k +:+ ".0 KB")
  /\ (1 <= k ->
      formatFileSize (1024 * 1024 * k) = pretty k +:+ ".0 MB").
Proof.
  unfold formatFileSize. repeat split; intros Hk.
  - destruct (Z.ltb_spec k 1024); [reflexivity | lia].
  - destruct (Z.ltb_spec (1024 * k) 1024); [lia|].
    destruct (Z.ltb_spec (1024 * k) (1024 * 1024)); [| lia].
    rewrite (toFixed1_whole k).
    + rewrite string_app_assoc. reflexivity.
    + rewrite inject_Z_mult. change (inject_Z 1024) with 1024%Q.
      field.
  - destruct (Z.ltb_spec (1024 * 1024 * k) 1024); [lia|].
    destruct (Z.ltb_spec (1024 * 1024 * k) (1024 * 1024)); [lia|].
    rewrite (toFixed1_whole k).
    + rewrite string_app_assoc. reflexivity.
    + rewrite !inject_Z_mult. change (inject_Z 1024) with 1024%Q.
      field.
Qed.

Lemma formatFileSize_whole_witness :
  formatFileSize 512 = "512 B"%string
  /\ formatFileSize (1024 * 3) = "3.0 KB"%string
  /\ formatFileSize (1024 * 1024 * 2) = "2.0 MB"%string.
Proof.
  destruct (formatFileSize_whole 512) as (H1 & _ & _).
  destruct (formatFileSize_whole 3) as (_ & H2 & _).
  destruct (formatFileSize_whole 2) as (_ & _ & H3).
  rewrite H1, H2, H3 by lia. repeat split.
Defined.

(** X26: a size within 51 bytes below one MiB is still shown in KB, and
    rounds up to `1024.0 KB`. *)
Theorem formatFileSize_below_MiB (bytes : Z) :
  1048525 <= bytes < 1048576 ->
  formatFileSize bytes = "1024.0 KB"%string.
Proof.
  intros Hb. unfold formatFileSize.
  destruct (Z.ltb_spec bytes 1024); [lia|].
  destruct (Z.ltb_spec bytes (1024 * 1024)); [| lia].
  unfold toFixed1.
  assert (Hn : Qfloor (inject_Z bytes / 1024 * 10 + (1 # 2)) = 10240).
  { assert (Hlo : (1048525 <= inject_Z bytes)%Q)
      by (change 1048525%Q with (inject_Z 1048525);
          rewrite <- Zle_Qle; lia).
    assert (Hhi : (inject_Z bytes < 1048576)%Q)
      by (change 1048576%Q with (inject_Z 1048576);
          rewrite <- Zlt_Qlt; lia).
    assert (E : (inject_Z bytes / 1024 == inject_Z bytes * (1 # 1024))%Q)
      by reflexivity.
    set (b := inject_Z bytes) in *. clearbody b.
    apply Qfloor_between; rewrite E;
      [change (inject_Z 10240) with 10240%Q
      | change (inject_Z (10240 + 1)) with 10241%Q]; lra. }
  rewrite Hn. vm_compute. reflexivity.
Qed.

Lemma formatFileSize_below_MiB_witness :
  formatFileSize 1048575 = "1024.0 KB"%string.
Proof. apply formatFileSize_below_MiB. lia. Defined.

Lemma substring_skip (pre : string) : forall (n m : nat) (s : string),
  substring (String.length pre + n) m (pre +:+ s) = substring n m s.
Proof.
  induction pre as [|c pre IH]; intros n m s; [reflexivity|].
  change (substring (String.length pre + n) m (pre +:+ s)
          = substring n m s).
  apply IH.
Qed.

Lemma substring_take (pre s : string) :
  substring 0 (String.length pre) (pre +:+ s) = pre.
Proof.
  induction pre as [|c pre IH]; [destruct s; reflexivity|].
  change (String c (substring 0 (String.length pre) (pre +:+ s))
          = String c pre).
  rewrite IH. reflexivity.
Qed.

Lemma replaceFirst_at (pattern replacement pre rest : string) :
  pattern <> EmptyString ->
  (forall p, (p < String.length pre)%nat ->
             ~ occursAt pattern (pre +:+ pattern +:+ rest) p) ->
  replaceFirst pattern replacement (pre +:+ pattern +:+ rest)
  = pre +:+ replacement +:+ rest.
Proof.
  intros Hne Hfirst. unfold replaceFirst.
  set (s := pre +:+ pattern +:+ rest).
  assert (Hocc : occursAt pattern s (String.length pre)).
  { unfold occursAt, s.
    rewrite <- (Nat.add_0_r (String.length pre)), substring_skip.
    apply substring_take. }
  destruct (index 0 pattern s) as [m|] eqn:E.
  - assert (m = String.length pre) as ->.
    { destruct (Nat.lt_trichotomy m (String.length pre)) as [Hlt|[Heq|Hgt]].
      - exfalso. apply (Hfirst m Hlt). exact (index_correct1 _ _ _ _ E).
      - exact Heq.
      - exfalso.
        apply (index_correct2 _ _ _ _ E (String.length pre));
          [lia | exact Hgt|].
        exact Hocc. }
    unfold s at 1. rewrite substring_take.
    replace (String.length s
             - (String.length pre + String.length pattern))%nat
      with (String.length rest)
      by (unfold s; rewrite !string_length_app; lia).
    unfold s.
    rewrite <- (Nat.add_0_r (String.length pattern)), Nat.add_assoc.
    rewrite <- (Nat.add_assoc (String.length pre)), substring_skip,
      substring_skip.
    rewrite <- (string_app_empty rest) at 2.
    rewrite substring_take. reflexivity.
  - exfalso.
    exact (index_correct3 0 (String.length pre) _ _ E Hne
             ltac:(lia) Hocc).
Qed.

(** X27: the download name replaces the first `.webm` of the file name
    by `.gif` and leaves what follows as it is; a file name ending in
    `.webm` with no earlier occurrence becomes a `.gif` name, while
    `a.webm.webm` keeps its last `.webm`. *)
Theorem downloadName_first_occurrence (pre rest : string) :
  (forall p, (p < String.length pre)%nat ->
             ~ occursAt ".webm" (pre +:+ ".webm" +:+ rest) p) ->
  downloadName (Some (pre +:+ ".webm" +:+ rest)) = pre +:+ ".gif" +:+ rest.
Proof.
  intros Hfirst. unfold downloadName.
  rewrite replaceFirst_at; [| discriminate | exact Hfirst].
  destruct pre; reflexivity.
Qed.

Lemma downloadName_first_occurrence_witness :
  downloadName (Some ("a" +:+ ".webm" +:+ ".webm"))
  = "a" +:+ ".gif" +:+ ".webm".
Proof.
  apply downloadName_first_occurrence.
  intros [|p] Hp; [unfold occursAt; cbn; discriminate | cbn in Hp; lia].
Defined.

(** X28: a file name in which `.webm` does not occur (another case, no
    extension) is kept as the download name, so the GIF is saved under a
    name without `.gif`. *)
Theorem downloadName_unchanged (name : string) :
  name <> EmptyString ->
  (forall p, ~ occursAt ".webm" name p) ->
  downloadName (Some name) = name.
Proof.
  intros Hne Hnone. unfold downloadName, replaceFirst.
  destruct (index 0 ".webm" name) as [m|] eqn:E.
  - exfalso. apply (Hnone m). exact (index_correct1 _ _ _ _ E).
  - destruct name; [contradiction | reflexivity].
Qed.

(** ** The further statements on concrete conversions *)

Lemma keyed_pixels_opaque_or_kept_witness :
  (128 <= inject_Z (alphaOf opaqueKey))%Q \/ opaqueKey = opaqueKey.
Proof.
  apply (keyed_pixels_opaque_or_kept 128 [10; 20; 30; 200; 1; 2; 3; 4] 1
           opaqueKey).
  reflexivity.
Defined.

Lemma key_colour_after_keying_witness :
  exists p',
    pixelAt (alphaKey 128 [0; 255; 0; 255]) 0 = Some p' /\
    (rgbOf p' = ColorKey <->
     (inject_Z 255 < 128)%Q \/ (0, 255, 0) = ColorKey).
Proof.
  apply (key_colour_after_keying 128 [0; 255; 0; 255] 0 (0, 255, 0, 255)).
  reflexivity.
Defined.



Lemma encoder_configured_witness :
  exists gif,
    gifRef (run demoOptions demoBrowser (convert useWebmToGif)
              (demoLoad ++ map seeked demoRasters)) = Some gif /\
    running gif = true /\
    workers gif <> 0 /\
    transparent gif = keyR * 65536 + keyG * 256 + keyB /\
    Forall (fun frame =>
              imageWidth frame = gifWidth gif /\
              imageHeight frame = gifHeight gif /\
              alphaKey (transparentThreshold demoOptions) (data frame)
              = data frame)
      (map (frameOf demoOptions demoBrowser) demoRasters).
Proof.
  apply (encoder_configured demoOptions demoBrowser useWebmToGif
           (demoLoad ++ map seeked demoRasters));
    reflexivity.
Defined.


Lemma settled_is_final_witness :
  pc (run demoOptions demoBrowser (convert useWebmToGif)
        (demoRun ++ [cancelCalled; videoError; seeked [1; 2; 3; 4]]))
  = Settled (Resolved [71; 73; 70])
  /\ progressState (run demoOptions demoBrowser (convert useWebmToGif)
                      (demoRun
                         ++ [cancelCalled; videoError; seeked [1; 2; 3; 4]]))
     = progressState (run demoOptions demoBrowser (convert useWebmToGif)
                        demoRun)
  /\ isConverting (run demoOptions demoBrowser (convert useWebmToGif)
                     (demoRun
                        ++ [cancelCalled; videoError; seeked [1; 2; 3; 4]]))
     = isConverting (run demoOptions demoBrowser (convert useWebmToGif)
                       demoRun)
  /\ history (run demoOptions demoBrowser (convert useWebmToGif)
                (demoRun ++ [cancelCalled; videoError; seeked [1; 2; 3; 4]]))
     = history (run demoOptions demoBrowser (convert useWebmToGif) demoRun).
Proof.
  apply (settled_is_final demoOptions demoBrowser useWebmToGif demoRun
           [cancelCalled; videoError; seeked [1; 2; 3; 4]]);
    reflexivity.
Defined.

Lemma video_error_while_loading_witness :
  pc (run demoOptions demoBrowser (convert useWebmToGif)
        ([loadedmetadata] ++ videoError :: [canplaythrough]))
  = Settled (Rejected "Failed to load video")
  /\ progressState (run demoOptions demoBrowser (convert useWebmToGif)
                      ([loadedmetadata] ++ videoError :: [canplaythrough]))
     = errorProgress "Failed to load video"
  /\ isConverting (run demoOptions demoBrowser (convert useWebmToGif)
                     ([loadedmetadata] ++ videoError :: [canplaythrough]))
     = false
  /\ history (run demoOptions demoBrowser (convert useWebmToGif)
                ([loadedmetadata] ++ videoError :: [canplaythrough]))
     = SetProgress (errorProgress "Failed to load video")
         :: SetProgress loadingProgress :: history useWebmToGif.
Proof.
  apply (video_error_while_loading demoOptions demoBrowser useWebmToGif
           [loadedmetadata] [canplaythrough]);
    [reflexivity | right; reflexivity].
Defined.

Lemma no_canvas_context_witness :
  pc (run demoOptions demoBrowserNoCanvas (convert useWebmToGif)
        ([loadedmetadata] ++ canplaythrough :: [seeked [1; 2; 3; 4]]))
  = Settled (Rejected "Failed to get canvas context")
  /\ progressState (run demoOptions demoBrowserNoCanvas
                      (convert useWebmToGif)
                      ([loadedmetadata]
                         ++ canplaythrough :: [seeked [1; 2; 3; 4]]))
     = errorProgress "Failed to get canvas context"
  /\ isConverting (run demoOptions demoBrowserNoCanvas
                     (convert useWebmToGif)
                     ([loadedmetadata]
                        ++ canplaythrough :: [seeked [1; 2; 3; 4]]))
     = false
  /\ history (run demoOptions demoBrowserNoCanvas (convert useWebmToGif)
                ([loadedmetadata]
                   ++ canplaythrough :: [seeked [1; 2; 3; 4]]))
     = SetProgress (errorProgress "Failed to get canvas context")
         :: SetProgress loadingProgress :: history useWebmToGif.
Proof.
  apply (no_canvas_context demoOptions demoBrowserNoCanvas useWebmToGif
           [loadedmetadata] [seeked [1; 2; 3; 4]]);
    reflexivity.
Defined.

Lemma finished_resolves_witness :
  pc (run demoOptions demoBrowser (convert useWebmToGif)
        ((demoLoad ++ map seeked demoRasters)
           ++ gifFinished [71] :: [cancelCalled]))
  = Settled (Resolved [71])
  /\ progressState (run demoOptions demoBrowser (convert useWebmToGif)
                      ((demoLoad ++ map seeked demoRasters)
                         ++ gifFinished [71] :: [cancelCalled]))
     = completeProgress (map (frameOf demoOptions demoBrowser) demoRasters)
  /\ isConverting (run demoOptions demoBrowser (convert useWebmToGif)
                     ((demoLoad ++ map seeked demoRasters)
                        ++ gifFinished [71] :: [cancelCalled]))
     = false
  /\ gifRef (run demoOptions demoBrowser (convert useWebmToGif)
               ((demoLoad ++ map seeked demoRasters)
                  ++ gifFinished [71] :: [cancelCalled]))
     = None.
Proof.
  apply (finished_resolves demoOptions demoBrowser useWebmToGif
           (demoLoad ++ map seeked demoRasters) [cancelCalled]);
    reflexivity.
Defined.

Lemma resolves_only_when_finished_witness :
  exists pre post,
    demoRun = pre ++ gifFinished [71; 73; 70] :: post /\
    existsb isCancel pre = false.
Proof.
  apply (resolves_only_when_finished demoOptions demoBrowser useWebmToGif
           demoRun);
    reflexivity.
Defined.


Lemma no_frames_to_sample_witness :
  pc (run demoOptions demoBrowserShort (convert useWebmToGif)
        [loadedmetadata; canplaythrough])
  = AwaitRender []
  /\ stage (progressState (run demoOptions demoBrowserShort
                             (convert useWebmToGif)
                             [loadedmetadata; canplaythrough]))
     = encoding
  /\ progress (progressState (run demoOptions demoBrowserShort
                                (convert useWebmToGif)
                                [loadedmetadata; canplaythrough]))
     = 50%Q
  /\ framesExtracted (progressState (run demoOptions demoBrowserShort
                                       (convert useWebmToGif)
                                       [loadedmetadata; canplaythrough]))
     = 0
  /\ totalFrames (progressState (run demoOptions demoBrowserShort
                                   (convert useWebmToGif)
                                   [loadedmetadata; canplaythrough]))
     = 0
  /\ seeks (history (run demoOptions demoBrowserShort
                       (convert useWebmToGif)
                       [loadedmetadata; canplaythrough]))
     = seeks (history useWebmToGif)
  /\ gifRef (run demoOptions demoBrowserShort (convert useWebmToGif)
               [loadedmetadata; canplaythrough])
     = Some (startedEncoder demoOptions demoBrowserShort []).
Proof.
  apply (no_frames_to_sample demoOptions demoBrowserShort useWebmToGif);
    first [reflexivity | unfold Qle; cbn; lia].
Defined.

Lemma converting_while_suspended_witness :
  isConverting (run demoOptions demoBrowser (convert useWebmToGif) demoLoad)
  = true.
Proof.
  apply (converting_while_suspended demoOptions demoBrowser useWebmToGif
           demoLoad);
    reflexivity.
Defined.

Lemma rejections_known_witness :
  In "Failed to load video"%string rejectionMessages
  /\ progressState (run demoOptions demoBrowser (convert useWebmToGif)
                      [videoError])
     = errorProgress "Failed to load video"
  /\ isConverting (run demoOptions demoBrowser (convert useWebmToGif)
                     [videoError]) = false.
Proof.
  destruct (rejections_known demoOptions demoBrowser useWebmToGif
              [videoError] "Failed to load video" eq_refl eq_refl)
    as [Hin Hreset].
  split; [apply Hin; reflexivity | apply Hreset; discriminate].
Defined.

Lemma cancel_while_sampling_resets_witness :
  pc (run demoOptions demoBrowser (convert useWebmToGif)
        (demoLoad ++ cancelCalled :: [seeked [1; 2; 3; 4]]))
  = Settled (Rejected "Conversion cancelled")
  /\ progressState (run demoOptions demoBrowser (convert useWebmToGif)
                      (demoLoad ++ cancelCalled :: [seeked [1; 2; 3; 4]]))
     = errorProgress "Conversion cancelled"
  /\ isConverting (run demoOptions demoBrowser (convert useWebmToGif)
                     (demoLoad ++ cancelCalled :: [seeked [1; 2; 3; 4]]))
     = false.
Proof.
  apply (cancel_while_sampling_resets demoOptions demoBrowser useWebmToGif
           demoLoad [seeked [1; 2; 3; 4]] 0 []);
    reflexivity.
Defined.

Lemma cancel_before_convert_witness :
  pc (run demoOptions demoBrowser (convert (cancel useWebmToGif)) demoRun)
  = pc (run demoOptions demoBrowser (convert useWebmToGif) demoRun)
  /\ progressState (run demoOptions demoBrowser
                      (convert (cancel useWebmToGif)) demoRun)
     = progressState (run demoOptions demoBrowser (convert useWebmToGif)
                        demoRun)
  /\ isConverting (run demoOptions demoBrowser
                     (convert (cancel useWebmToGif)) demoRun)
     = isConverting (run demoOptions demoBrowser (convert useWebmToGif)
                       demoRun)
  /\ history (run demoOptions demoBrowser (convert (cancel useWebmToGif))
                demoRun)
     = history (run demoOptions demoBrowser (convert useWebmToGif) demoRun).
Proof.
  apply (cancel_before_convert demoOptions demoBrowser useWebmToGif demoRun).
  reflexivity.
Defined.

Lemma progress_in_range_witness :
  exists added,
    history (run demoOptions demoBrowser (convert useWebmToGif) demoRun)
    = added ++ history useWebmToGif
    /\ Forall progressInRange added.
Proof.
  apply (progress_in_range demoOptions demoBrowser useWebmToGif demoRun);
    [reflexivity|].
  repeat (apply Forall_cons;
          split; [first [exact I | split; unfold Qle; cbn; lia]|]).
  apply Forall_nil. exact I.
Defined.

Lemma downloadName_unchanged_witness :
  downloadName (Some "CLIP.WEBM"%string) = "CLIP.WEBM"%string.
Proof.
  apply downloadName_unchanged; [discriminate|].
  intros p. unfold occursAt.
  do 10 (destruct p as [|p]; [cbn; discriminate|]).
  cbn. discriminate.
Defined.
